(** * tbot1: signal evaluation (app.py) and order routing (kite_trader.py)

    The columns of the pandas frames of [app.py] hold IEEE 754 binary64
    numbers; they are embedded as the kernel's primitive [float]s, whose
    operations are specified by [SpecFloat].  The broker module
    [kite_trader.py] is embedded with an explicit state (instrument cache,
    broker call trace, log) and an error monad. *)

From Stdlib Require Import ZArith QArith Qabs Qpower Qround Lia Lqa List Bool String Ascii.
From Stdlib Require Import Floats.
Import ListNotations.

(* ================================================================== *)
(** * Binary64 numbers and their values *)
(* ================================================================== *)

Module Binary64.

(** The value of a binary64 number: not a number, an infinity, or a
    rational. *)
Inductive ereal : Type :=
  | NaN
  | MInf
  | Fin (q : Q)
  | PInf.

Definition cond_Qopp (s : bool) (q : Q) : Q := if s then Qopp q else q.

Definition SF2X (x : spec_float) : ereal :=
  match x with
  | S754_nan => NaN
  | S754_infinity s => if s then MInf else PInf
  | S754_zero _ => Fin 0
  | S754_finite s m e => Fin (cond_Qopp s (inject_Z (Zpos m) * 2 ^ e))
  end.

Definition value (x : float) : ereal := SF2X (Prim2SF x).

(** Order on values; nothing compares with [NaN]. *)
Definition ele (a b : ereal) : Prop :=
  match a, b with
  | NaN, _ | _, NaN => False
  | MInf, _ => True
  | _, PInf => True
  | Fin p, Fin q => (p <= q)%Q
  | _, _ => False
  end.

Definition elt (a b : ereal) : Prop :=
  match a, b with
  | NaN, _ | _, NaN => False
  | MInf, MInf => False
  | PInf, PInf => False
  | MInf, _ => True
  | _, PInf => True
  | Fin p, Fin q => (p < q)%Q
  | _, _ => False
  end.

Definition eeq (a b : ereal) : Prop :=
  match a, b with
  | MInf, MInf => True
  | PInf, PInf => True
  | Fin p, Fin q => (p == q)%Q
  | _, _ => False
  end.

Definition defined (x : float) : Prop := value x <> NaN.

Definition undefined (x : float) : Prop := value x = NaN.

Definition finite (x : float) : Prop := exists q, value x = Fin q.

(** Order of values as a comparison. *)
Definition ecompare (a b : ereal) : option comparison :=
  match a, b with
  | NaN, _ | _, NaN => None
  | MInf, MInf => Some Eq
  | PInf, PInf => Some Eq
  | MInf, _ => Some Lt
  | _, PInf => Some Lt
  | PInf, _ => Some Gt
  | _, MInf => Some Gt
  | Fin p, Fin q => Some (p ?= q)%Q
  end.

(** The value of an integer constant, and the absolute value. *)
Definition of_Z (n : Z) : ereal := Fin (inject_Z n).

Definition eabs (a : ereal) : ereal :=
  match a with
  | NaN => NaN
  | MInf | PInf => PInf
  | Fin q => Fin (Qabs q)
  end.

Declare Scope ereal_scope.
Delimit Scope ereal_scope with E.
Bind Scope ereal_scope with ereal.
Notation "a <= b" := (ele a b) : ereal_scope.
Notation "a < b" := (elt a b) : ereal_scope.
Notation "a == b" := (eeq a b) : ereal_scope.
Notation "a <= b <= c" := (ele a b /\ ele b c) : ereal_scope.

End Binary64.

(* ================================================================== *)
(** * app.py: indicator table and strategy *)
(* ================================================================== *)

Module App.

Local Open Scope float_scope.

(** ** Frames *)

(** [datetime.time], compared field by field. *)
Record time : Type := mk_time
  { hour : nat; minute : nat; second : nat; microsecond : nat }.

Definition time_geb (a b : time) : bool :=
  match Nat.compare (hour a) (hour b) with
  | Gt => true
  | Lt => false
  | Eq =>
    match Nat.compare (minute a) (minute b) with
    | Gt => true
    | Lt => false
    | Eq =>
      match Nat.compare (second a) (second b) with
      | Gt => true
      | Lt => false
      | Eq => Nat.leb (microsecond b) (microsecond a)
      end
    end
  end.

(** A timestamp of the [Datetime] column: the day (as an ordinal) and the
    time of day, which is what [.dt.time] reads. *)
Record Timestamp : Type := mk_timestamp
  { ts_day : Z; ts_time : time }.

(** A row of the frame [fetch_data] returns. *)
Record Bar : Type := mk_bar
  { Datetime : Timestamp;
    Adj_Close : float;
    Close : float;
    High : float;
    Low : float;
    Open : float;
    Volume : float }.

(** The columns [add_indicators] adds. *)
Record Indicators : Type := mk_indicators
  { BB60 : float; BB105 : float; BB150 : float;
    RSI20 : float; WILLR28 : float;
    plusDI6 : float; minusDI6 : float;
    plusDI20 : float; minusDI20 : float;
    MA8 : float }.

(** A row of the frame [ind] once the [Stock] column is set. *)
Record IndicatorRow : Type := mk_row
  { Stock : string;
    bar :> Bar;
    ind :> Indicators }.

(** A row of the frame [apply_strategy] returns. *)
Record SignalRow : Type := mk_signal
  { row :> IndicatorRow;
    CALL_ENTRY : bool;
    PUT_ENTRY : bool;
    CALL_EXIT : bool;
    PUT_EXIT : bool }.

(** A frame is the list of its rows; a column ([pd.Series]) is the list of
    its cells, in row order. *)
Definition Series (A : Type) : Type := list A.

Definition column {R A : Type} (df : list R) (f : R -> A) : Series A :=
  map f df.

(** [df.[c]] is the column [c] of the frame [df]. *)
Notation "df .[ c ]" := (column df (fun r => c r))
  (at level 1, left associativity, format "df .[ c ]").

Fixpoint zip_with {A B C : Type} (f : A -> B -> C)
  (xs : Series A) (ys : Series B) : Series C :=
  match xs, ys with
  | x :: xs', y :: ys' => f x y :: zip_with f xs' ys'
  | _, _ => []
  end.

(** ** Element-wise operations of pandas on float64 and bool columns *)

(** [s <= c] *)
Definition s_le (s : Series float) (c : float) : Series bool :=
  map (fun x => x <=? c) s.

(** [s >= c] *)
Definition s_ge (s : Series float) (c : float) : Series bool :=
  map (fun x => c <=? x) s.

(** [s < c] *)
Definition s_lt (s : Series float) (c : float) : Series bool :=
  map (fun x => x <? c) s.

(** [s.between(left, right)]: [(s >= left) & (s <= right)]. *)
Definition s_between (s : Series float) (left right : float) : Series bool :=
  zip_with andb (s_ge s left) (s_le s right).

(** [a & b], [a | b] *)
Definition s_and (a b : Series bool) : Series bool := zip_with andb a b.
Definition s_or (a b : Series bool) : Series bool := zip_with orb a b.

(** [a - b], [s.abs()], [a < b], [a > b] *)
Definition s_sub (a b : Series float) : Series float :=
  zip_with PrimFloat.sub a b.
Definition s_abs (s : Series float) : Series float := map abs s.
Definition s_ltb (a b : Series float) : Series bool :=
  zip_with PrimFloat.ltb a b.
Definition s_gtb (a b : Series float) : Series bool :=
  zip_with (fun x y => y <? x) a b.

Infix "&" := s_and (at level 40, left associativity).
Infix "||| " := s_or (at level 50, left associativity).

(** ** CONFIG *)

Definition MIN_BARS : nat := 160.

(** ** STRATEGY LOGIC *)

(** Setting the four flag columns on the frame. *)
Fixpoint set_flags (df : list IndicatorRow)
  (ce pe cx px : Series bool) : list SignalRow :=
  match df, ce, pe, cx, px with
  | r :: df', a :: ce', b :: pe', c :: cx', d :: px' =>
      mk_signal r a b c d :: set_flags df' ce' pe' cx' px'
  | _, _, _, _, _ => []
  end.

Definition apply_strategy (df : list IndicatorRow) : list SignalRow :=
  let call_entry :=
    s_le df.[BB60] 35 &
    s_between df.[RSI20] 65 100 &
    s_between df.[WILLR28] (-20) 0 &
    s_ge df.[plusDI6] 40 & s_le df.[minusDI6] 12 &
    s_ge df.[plusDI20] 35 & s_le df.[minusDI20] 15 in
  let put_entry :=
    s_le df.[BB60] 35 &
    s_between df.[RSI20] 1 40 &
    s_between df.[WILLR28] (-100) (-80) &
    s_ge df.[minusDI6] 35 & s_le df.[plusDI6] 15 &
    s_ge df.[minusDI20] 30 & s_le df.[plusDI20] 15 in
  let di_diff := s_abs (s_sub df.[plusDI20] df.[minusDI20]) in
  let call_exit :=
    s_lt di_diff 10 ||| s_ltb df.[Close] df.[MA8] in
  let put_exit :=
    s_lt di_diff 10 ||| s_gtb df.[Close] df.[MA8] in
  set_flags df call_entry put_entry call_exit put_exit.

(** The same rules, read on one row. *)
Definition between (x left right : float) : bool :=
  (left <=? x) && (x <=? right).

Definition call_entry_row (r : Indicators) : bool :=
  (BB60 r <=? 35) &&
  between (RSI20 r) 65 100 &&
  between (WILLR28 r) (-20) 0 &&
  (40 <=? plusDI6 r) && (minusDI6 r <=? 12) &&
  (35 <=? plusDI20 r) && (minusDI20 r <=? 15).

Definition put_entry_row (r : Indicators) : bool :=
  (BB60 r <=? 35) &&
  between (RSI20 r) 1 40 &&
  between (WILLR28 r) (-100) (-80) &&
  (35 <=? minusDI6 r) && (plusDI6 r <=? 15) &&
  (30 <=? minusDI20 r) && (plusDI20 r <=? 15).

Definition di_diff_row (r : Indicators) : float :=
  abs (plusDI20 r - minusDI20 r).

Definition call_exit_row (r : IndicatorRow) : bool :=
  (di_diff_row r <? 10) || (Close r <? MA8 r).

Definition put_exit_row (r : IndicatorRow) : bool :=
  (di_diff_row r <? 10) || (MA8 r <? Close r).

Definition strategy_row (r : IndicatorRow) : SignalRow :=
  mk_signal r (call_entry_row r) (put_entry_row r)
    (call_exit_row r) (put_exit_row r).

(** ** FETCH DATA, INDICATORS, PIPELINE *)

Section Pipeline.

(** [yf.download(symbol, period="5d", interval="5m")] followed by the
    coercion of the price columns to numbers: the rows of the download,
    with [nan] in the cells that do not parse. *)
Variable yf_download : string -> list Bar.

(** The indicator columns of the [ta] library: [ta_indicators raw i] holds
    the values at row [i] computed from the Close, High and Low columns
    of [raw]. *)
Variable ta_indicators : list Bar -> nat -> Indicators.

Definition isna (b : Bar) : bool :=
  is_nan (Adj_Close b) || is_nan (Close b) || is_nan (High b) ||
  is_nan (Low b) || is_nan (Open b) || is_nan (Volume b).

Definition dropna (df : list Bar) : list Bar :=
  filter (fun b => negb (isna b)) df.

Definition fetch_data (symbol : string) : option (list Bar) :=
  let df := yf_download symbol in
  match df with
  | [] => None
  | _ => Some (dropna df)
  end.

(** The frame with the indicator columns added, row by row. *)
Fixpoint add_columns (raw : list Bar) (i : nat) (rest : list Bar)
  : list (Bar * Indicators) :=
  match rest with
  | [] => []
  | b :: rest' => (b, ta_indicators raw i) :: add_columns raw (S i) rest'
  end.

Definition add_indicators (df : list Bar) : list (Bar * Indicators) :=
  add_columns df 0 df.

(** [ind["Stock"] = stock] *)
Definition set_stock (stock : string) (ind : list (Bar * Indicators))
  : list IndicatorRow :=
  map (fun bi => mk_row stock (fst bi) (snd bi)) ind.

(** A symbol is passed over when its series is missing or short. *)
Definition skipped (stock : string) : Prop :=
  fetch_data stock = None \/
  exists raw, fetch_data stock = Some raw /\
              (List.length raw < MIN_BARS)%nat.

(** One turn of the loop over [stocks]. *)
Definition pipeline_step (frames : list (list IndicatorRow))
  (stock : string) : list (list IndicatorRow) :=
  match fetch_data stock with
  | Some raw =>
      if Nat.leb MIN_BARS (List.length raw)
      then frames ++ [set_stock stock (add_indicators raw)]
      else frames
  | None => frames
  end.

Definition pipeline_frames (stocks : list string)
  : list (list IndicatorRow) :=
  fold_left pipeline_step stocks [].

(** [pd.concat(frames, ignore_index=True)] *)
Definition aggregated (stocks : list string) : list IndicatorRow :=
  List.concat (pipeline_frames stocks).

Definition after_ten (r : SignalRow) : bool :=
  time_geb (ts_time (Datetime r)) (mk_time 10 0 0 0).

(** What the script reaches: the error message and [st.stop()], or the
    frame [df] the dashboard reads. *)
Inductive outcome : Type :=
  | NoValidData
  | Dashboard (df : list SignalRow).

Definition pipeline (stocks : list string) : outcome :=
  match pipeline_frames stocks with
  | [] => NoValidData
  | frames => Dashboard (filter after_ten (apply_strategy (List.concat frames)))
  end.

Definition call_df (df : list SignalRow) : list SignalRow :=
  filter (fun r => CALL_ENTRY r && negb (CALL_EXIT r)) df.

Definition put_df (df : list SignalRow) : list SignalRow :=
  filter (fun r => PUT_ENTRY r && negb (PUT_EXIT r)) df.

End Pipeline.

End App.

(* ================================================================== *)
(** * kite_trader.py: instrument resolution and orders *)
(* ================================================================== *)

Module KiteTrader.

Import Binary64.

(** ** Data *)

(** [datetime.date], ordered by year, month, day. *)
Record date : Type := mk_date { year : Z; month : Z; day : Z }.

Definition date_compare (a b : date) : comparison :=
  match (year a ?= year b)%Z with
  | Eq =>
    match (month a ?= month b)%Z with
    | Eq => (day a ?= day b)%Z
    | c => c
    end
  | c => c
  end.

Definition date_eqb (a b : date) : bool :=
  match date_compare a b with Eq => true | _ => false end.

Definition date_leb (a b : date) : bool :=
  match date_compare a b with Gt => false | _ => true end.

(** An entry of the list [kite.instruments("NFO")] returns. *)
Record Instrument : Type := mk_instrument
  { name : string;
    expiry : date;
    strike : float;
    instrument_type : string;
    tradingsymbol : string }.

(** An entry of [kite.positions()["net"]]. *)
Record Position : Type := mk_position
  { pos_tradingsymbol : string;
    quantity : Z }.

(** The keyword arguments of [kite.place_order]. *)
Record Order : Type := mk_order
  { variety : string;
    exchange : string;
    order_tradingsymbol : string;
    transaction_type : string;
    order_quantity : Z;
    product : string;
    order_type : string }.

(** The constants of [KiteConnect] the module reads. *)
Definition VARIETY_REGULAR : string := "regular".
Definition TRANSACTION_TYPE_BUY : string := "BUY".
Definition TRANSACTION_TYPE_SELL : string := "SELL".
Definition ORDER_TYPE_MARKET : string := "MARKET".

(** The module [config], which is not part of the sources: its values are
    parameters. *)
Record Config : Type := mk_config
  { AUTO_TRADE : bool;
    EXCHANGE : string;
    ORDER_QTY : Z;
    PRODUCT : string }.

(** The requests sent to the broker. *)
Inductive Call : Type :=
  | CallLtp (key : string)
  | CallInstruments (segment : string)
  | CallPlaceOrder (o : Order)
  | CallPositions.

(** The broker: what each request answers after the requests made so far,
    [None] when the request raises. *)
Record Kite : Type := mk_kite
  { kite_ltp : list Call -> string -> option float;
    kite_instruments : list Call -> string -> option (list Instrument);
    kite_place_order : list Call -> Order -> option string;
    kite_positions : list Call -> option (list Position) }.

(** The exceptions that leave a function of the module. *)
Inductive exn : Type :=
  | BrokerError (c : Call)
  | IndexError
  | ValueError
  | OverflowError
  | OptionSymbolNotFound.

(** The state of the process: the global [_INSTRUMENTS], the requests sent
    to the broker so far, and the lines logged. *)
Record State : Type := mk_state
  { _INSTRUMENTS : option (list Instrument);
    calls : list Call;
    log : list string }.

Definition initial : State := mk_state None [] [].

(** ** State and exceptions *)

Definition M (A : Type) : Type := State -> (exn + A) * State.

Definition ret {A : Type} (a : A) : M A := fun st => (inr a, st).

Definition raise {A : Type} (e : exn) : M A := fun st => (inl e, st).

Definition bind {A B : Type} (m : M A) (k : A -> M B) : M B :=
  fun st =>
    match m st with
    | (inl e, st') => (inl e, st')
    | (inr a, st') => k a st'
    end.

Notation "x <- m ;; k" := (bind m (fun x => k))
  (at level 61, m at next level, right associativity).
Notation "m ;; k" := (bind m (fun _ => k))
  (at level 61, right associativity).

(** A request to the broker: it is recorded, then it answers or raises. *)
Definition request {A : Type} (c : Call) (answer : list Call -> option A)
  : M A :=
  fun st =>
    let st' := mk_state (_INSTRUMENTS st) (calls st ++ [c]) (log st) in
    match answer (calls st) with
    | Some a => (inr a, st')
    | None => (inl (BrokerError c), st')
    end.

Definition logging_info (msg : string) : M unit :=
  fun st => (inr tt, mk_state (_INSTRUMENTS st) (calls st) (log st ++ [msg])).

Definition get_cache : M (option (list Instrument)) :=
  fun st => (inr (_INSTRUMENTS st), st).

Definition set_cache (ins : list Instrument) : M unit :=
  fun st => (inr tt, mk_state (Some ins) (calls st) (log st)).

Fixpoint for_each {A : Type} (body : A -> M unit) (l : list A) : M unit :=
  match l with
  | [] => ret tt
  | x :: l' => body x ;; for_each body l'
  end.

(** ** Numbers of Python *)

(** [round(x)] on the exact value: the nearest integer, the even one of the
    two when [x] is half-way. *)
Definition round_half_even (q : Q) : Z :=
  let n := Qfloor q in
  match (q - inject_Z n ?= 1 # 2)%Q with
  | Lt => n
  | Gt => (n + 1)%Z
  | Eq => if Z.even n then n else (n + 1)%Z
  end.

(** [round(x)] of a float: an [int], or the exception of a float that has
    no integer. *)
Definition py_round (x : float) : M Z :=
  match value x with
  | NaN => raise ValueError
  | MInf | PInf => raise OverflowError
  | Fin q => ret (round_half_even q)
  end.

(** [x == n] between a float and an [int]: equality of the values. *)
Definition float_eq_int (x : float) (n : Z) : bool :=
  match value x with
  | Fin q => Qeq_bool q (inject_Z n)
  | _ => false
  end.

(** [sorted(list({...}))] on dates. *)
Fixpoint set_add (d : date) (s : list date) : list date :=
  match s with
  | [] => [d]
  | x :: s' => if date_eqb d x then s else x :: set_add d s'
  end.

Definition set_of (l : list date) : list date :=
  fold_left (fun s d => set_add d s) l [].

Fixpoint insert (d : date) (l : list date) : list date :=
  match l with
  | [] => [d]
  | x :: l' => if date_leb d x then d :: l else x :: insert d l'
  end.

Definition sorted (l : list date) : list date :=
  fold_right insert [] l.

Section Module.

Variable config : Config.
Variable kite : Kite.

(** ** GLOBAL CACHE *)

Definition load_instruments : M (list Instrument) :=
  cached <- get_cache ;;
  match cached with
  | None =>
      ins <- request (CallInstruments "NFO")
               (fun h => kite_instruments kite h "NFO") ;;
      set_cache ins ;;
      ret ins
  | Some ins => ret ins
  end.

(** ** GET NIFTY SPOT PRICE *)

Definition get_nifty_spot : M float :=
  request (CallLtp "NSE:NIFTY 50")
    (fun h => kite_ltp kite h "NSE:NIFTY 50").

(** ** GET CURRENT WEEKLY EXPIRY *)

Definition nifty_expiries (instruments : list Instrument) : list date :=
  sorted (set_of
    (map expiry (filter (fun i => String.eqb (name i) "NIFTY") instruments))).

Definition get_current_expiry : M date :=
  instruments <- load_instruments ;;
  match nifty_expiries instruments with
  | [] => raise IndexError
  | e :: _ => ret e
  end.

(** ** OPTION SYMBOL RESOLUTION (ATM) *)

Definition option_type (side : string) : string :=
  if String.eqb side "CALL" then "CE" else "PE".

Definition is_option (expiry0 : date) (strike0 : Z) (side : string)
  (ins : Instrument) : bool :=
  String.eqb (name ins) "NIFTY"
  && date_eqb (expiry ins) expiry0
  && float_eq_int (strike ins) strike0
  && String.eqb (instrument_type ins) (option_type side).

(** [round(spot / 50) * 50] *)
Definition atm_strike (spot : float) : M Z :=
  n <- py_round (spot / 50)%float ;;
  ret (n * 50)%Z.

Definition get_atm_option_symbol (side : string) : M string :=
  spot <- get_nifty_spot ;;
  strike0 <- atm_strike spot ;;
  expiry0 <- get_current_expiry ;;
  instruments <- load_instruments ;;
  match find (is_option expiry0 strike0 side) instruments with
  | Some ins => ret (tradingsymbol ins)
  | None => raise OptionSymbolNotFound
  end.

(** ** PLACE ENTRY ORDER *)

(** The dictionary [place_entry] returns. *)
Record EntryResult : Type := mk_entry
  { status : string;
    symbol : string;
    order_id : option string }.

Definition place_entry (side : string) : M EntryResult :=
  symbol0 <- get_atm_option_symbol side ;;
  if negb (AUTO_TRADE config) then
    logging_info ("PAPER ENTRY → " ++ symbol0) ;;
    ret (mk_entry "paper" symbol0 None)
  else
    let o := mk_order VARIETY_REGULAR (EXCHANGE config) symbol0
               TRANSACTION_TYPE_BUY (ORDER_QTY config) (PRODUCT config)
               ORDER_TYPE_MARKET in
    id <- request (CallPlaceOrder o) (fun h => kite_place_order kite h o) ;;
    logging_info ("LIVE ENTRY → " ++ symbol0 ++ " | Order ID: " ++ id) ;;
    ret (mk_entry "live" symbol0 (Some id)).

(** ** EXIT POSITION (MARKET) *)

Definition exit_order (tradingsymbol0 : string) (qty : Z) : Order :=
  mk_order VARIETY_REGULAR (EXCHANGE config) tradingsymbol0
    TRANSACTION_TYPE_SELL qty (PRODUCT config) ORDER_TYPE_MARKET.

Definition exit_position (tradingsymbol0 : string) (qty : Z) : M unit :=
  if negb (AUTO_TRADE config) then
    logging_info ("PAPER EXIT → " ++ tradingsymbol0)
  else
    let o := exit_order tradingsymbol0 qty in
    request (CallPlaceOrder o) (fun h => kite_place_order kite h o) ;;
    logging_info ("LIVE EXIT → " ++ tradingsymbol0).

(** ** FETCH OPEN POSITIONS *)

Definition open_positions (positions : list Position) : list Position :=
  filter (fun p => negb (quantity p =? 0)%Z) positions.

Definition get_open_positions : M (list Position) :=
  positions <- request CallPositions (kite_positions kite) ;;
  ret (open_positions positions).

(** ** AUTO EXIT LOGIC *)

Definition auto_exit (exit_signal : bool) : M unit :=
  if negb exit_signal then ret tt
  else
    positions <- get_open_positions ;;
    for_each
      (fun pos => exit_position (pos_tradingsymbol pos) (Z.abs (quantity pos)))
      positions.

(** ** UTILITY: IS POSITION OPEN? *)

Definition has_open_position : M bool :=
  positions <- get_open_positions ;;
  ret (Nat.ltb 0 (List.length positions)).

End Module.

(** ** What the claims speak of *)


(** The float of a whole price, and the multiple of 50 nearest to a whole
    price, the even multiple of the two when the price is half-way. *)
Definition whole_price (n : Z) : float := of_uint63 (Uint63Axioms.of_Z n).

Definition nearest_strike (n : Z) : Z :=
  let k := (n / 50)%Z in
  match (n mod 50 ?= 25)%Z with
  | Lt => (k * 50)%Z
  | Gt => ((k + 1) * 50)%Z
  | Eq => ((if Z.even k then k else k + 1) * 50)%Z
  end.

Definition strike_is_nearest (n : Z) : bool :=
  float_eq_int (whole_price n) n &&
  match fst (atm_strike (whole_price n) initial) with
  | inr s => (s =? nearest_strike n)%Z
  | inl _ => false
  end.

Definition whole_prices : list Z :=
  map Z.of_nat (seq 0 (Z.to_nat 30001)).

(** The market sell orders that close the positions, and the lines logged
    for them. *)
Definition exit_calls (config : Config) (positions : list Position)
  : list Call :=
  map (fun p =>
         CallPlaceOrder
           (exit_order config (pos_tradingsymbol p) (Z.abs (quantity p))))
      positions.

Definition exit_lines (prefix : string) (positions : list Position)
  : list string :=
  map (fun p => (prefix ++ pos_tradingsymbol p)%string) positions.


(** "Paper mode bypasses all broker calls and cannot fail this way", read
    on [place_entry] and [exit_position]. *)
Definition paper_mode_bypasses_broker : Prop :=
  forall config kite st, AUTO_TRADE config = false ->
    (forall side,
       calls (snd (place_entry config kite side st)) = calls st /\
       forall c, fst (place_entry config kite side st) <> inl (BrokerError c))
    /\
    (forall sym qty,
       calls (snd (exit_position config kite sym qty st)) = calls st /\
       forall c,
         fst (exit_position config kite sym qty st) <> inl (BrokerError c)).

(** Configurations, brokers and instruments to run the module on. *)
Definition paper_config : Config := mk_config false "NFO" 50 "MIS".
Definition live_config : Config := mk_config true "NFO" 50 "MIS".

Definition example_universe : list Instrument :=
  [ mk_instrument "NIFTY" (mk_date 2024 1 25) 10500 "CE" "NIFTY24JAN10500CE";
    mk_instrument "BANKNIFTY" (mk_date 2024 1 17) 10500 "CE"
      "BANKNIFTY2411710500CE";
    mk_instrument "NIFTY" (mk_date 2024 1 18) 10500 "CE" "NIFTY2411810500CE";
    mk_instrument "NIFTY" (mk_date 2024 1 18) 10500 "PE" "NIFTY2411810500PE";
    mk_instrument "NIFTY" (mk_date 2024 1 18) 10550 "CE" "NIFTY2411810550CE" ].

Definition example_positions : list Position :=
  [ mk_position "NIFTY2411810500CE" 50;
    mk_position "NIFTY2411810400PE" 0;
    mk_position "NIFTY2411810600PE" (-25) ].

Definition example_kite (spot : float) : Kite :=
  mk_kite (fun _ _ => Some spot)
          (fun _ _ => Some example_universe)
          (fun _ o => Some ("order-" ++ order_tradingsymbol o)%string)
          (fun _ => Some example_positions).

(** A broker that is down: every request raises. *)
Definition kite_down : Kite :=
  mk_kite (fun _ _ => None) (fun _ _ => None) (fun _ _ => None)
          (fun _ => None).

End KiteTrader.

(* ================================================================== *)
(** * The rules of the strategy, on values *)
(* ================================================================== *)

Module Rules.

Import Binary64 App.

Coercion value : float >-> ereal.

Local Open Scope ereal_scope.

(** The difference of the two DI20 columns as the frame computes it: the
    binary64 difference, then its absolute value. *)
Definition di_gap (r : Indicators) : ereal :=
  eabs (value (plusDI20 r - minusDI20 r)%float).

Definition call_entry_rule (r : Indicators) : Prop :=
  BB60 r <= of_Z 35 /\
  of_Z 65 <= RSI20 r <= of_Z 100 /\
  of_Z (-20) <= WILLR28 r <= of_Z 0 /\
  of_Z 40 <= plusDI6 r /\ minusDI6 r <= of_Z 12 /\
  of_Z 35 <= plusDI20 r /\ minusDI20 r <= of_Z 15.

Definition put_entry_rule (r : Indicators) : Prop :=
  BB60 r <= of_Z 35 /\
  of_Z 1 <= RSI20 r <= of_Z 40 /\
  of_Z (-100) <= WILLR28 r <= of_Z (-80) /\
  of_Z 35 <= minusDI6 r /\ plusDI6 r <= of_Z 15 /\
  of_Z 30 <= minusDI20 r /\ plusDI20 r <= of_Z 15.

Definition call_exit_rule (r : IndicatorRow) : Prop :=
  di_gap r < of_Z 10 \/ Close r < MA8 r.

Definition put_exit_rule (r : IndicatorRow) : Prop :=
  di_gap r < of_Z 10 \/ MA8 r < Close r.

(** A flag "contains" the columns its rule reads. *)
Definition entry_input_undefined (r : Indicators) : Prop :=
  undefined (BB60 r) \/ undefined (RSI20 r) \/ undefined (WILLR28 r) \/
  undefined (plusDI6 r) \/ undefined (minusDI6 r) \/
  undefined (plusDI20 r) \/ undefined (minusDI20 r).

Definition di_undefined (r : Indicators) : Prop :=
  undefined (plusDI20 r) \/ undefined (minusDI20 r).

Definition price_undefined (r : IndicatorRow) : Prop :=
  undefined (Close r) \/ undefined (MA8 r).

(** The reading of "an undefined input makes the containing predicate
    false" on the four flags. *)
Definition undefined_input_makes_flag_false : Prop :=
  forall r : IndicatorRow,
    (entry_input_undefined r ->
     call_entry_row r = false /\ put_entry_row r = false) /\
    (di_undefined r \/ price_undefined r ->
     call_exit_row r = false /\ put_exit_row r = false).

(** Rows to run the rules on. *)
Definition example_bar (close : float) : Bar :=
  mk_bar (mk_timestamp 738000 (mk_time 10 15 0 0))
    close close close close close 1000.

Definition exit_example_row : IndicatorRow :=
  mk_row "RELIANCE.NS" (example_bar 100)
    (mk_indicators 20 20 20 50 (-50) 30 20 50 10 101).

Definition nan_di_row : IndicatorRow :=
  mk_row "RELIANCE.NS" (example_bar 100)
    (mk_indicators 20 20 20 50 (-50) 30 20 nan 10 101).

Definition flat_row : IndicatorRow :=
  mk_row "RELIANCE.NS" (example_bar 100)
    (mk_indicators 20 20 20 50 (-50) 30 20 50 10 100).

(** A download with one symbol of 160 bars and one of 159. *)
Definition example_download (symbol : string) : list Bar :=
  if String.eqb symbol "TCS.NS" then repeat (example_bar 100) 160
  else if String.eqb symbol "INFY.NS" then repeat (example_bar 100) 159
  else [].

Definition example_indicators (raw : list Bar) (i : nat) : Indicators :=
  mk_indicators 20 20 20 50 (-50) 30 20 50 10 101.

Definition example_stocks : list string :=
  ["INFY.NS"%string; "TCS.NS"%string; "WIPRO.NS"%string].

Definition infinite_di_row : IndicatorRow :=
  mk_row "RELIANCE.NS" (example_bar 100)
    (mk_indicators 20 20 20 50 (-50) 30 20 infinity infinity 100).

Definition call_boundary_row : IndicatorRow :=
  mk_row "RELIANCE.NS" (example_bar 100)
    (mk_indicators 35 20 20 65 (-20) 40 12 35 15 99).

Definition put_boundary_row : IndicatorRow :=
  mk_row "RELIANCE.NS" (example_bar 100)
    (mk_indicators 35 20 20 40 (-80) 15 35 15 30 101).

End Rules.

(* ================================================================== *)
(** * app.py: the list of symbols and the shape of the table *)
(* ================================================================== *)

Module Stocks.

Import Binary64 App.

(** ** LOAD STOCKS *)

(** [df["Stock"].dropna()] on the cells of the column, [None] being a
    missing cell. *)
Definition dropna_cells (column : list (option string)) : list string :=
  flat_map (fun cell => match cell with Some s => [s] | None => [] end) column.

(** [.unique()]: the values in the order they first appear. *)
Fixpoint unique_from (seen l : list string) : list string :=
  match l with
  | [] => []
  | x :: l' =>
      if existsb (String.eqb x) seen then unique_from seen l'
      else x :: unique_from (x :: seen) l'
  end.

Definition unique (l : list string) : list string := unique_from [] l.

(** [load_stocks] on the Stock column of [nifty_stocks.csv]. *)
Definition load_stocks (stock_column : list (option string)) : list string :=
  unique (dropna_cells stock_column).

(** A bar has a number in each of its price and volume cells. *)
Definition clean (b : Bar) : Prop :=
  defined (Adj_Close b) /\ defined (Close b) /\ defined (High b) /\
  defined (Low b) /\ defined (Open b) /\ defined (Volume b).

(** [cleaned df raw]: [raw] is [df] without the bars that miss a number,
    the others kept in their order. *)
Inductive cleaned : list Bar -> list Bar -> Prop :=
  | cleaned_nil : cleaned [] []
  | cleaned_keep (b : Bar) (df raw : list Bar) :
      clean b -> cleaned df raw -> cleaned (b :: df) (b :: raw)
  | cleaned_drop (b : Bar) (df raw : list Bar) :
      ~ clean b -> cleaned df raw -> cleaned (b :: df) raw.

Section Table.

Variable yf_download : string -> list Bar.
Variable ta_indicators : list Bar -> nat -> Indicators.

(** The frame a symbol adds to the table: its bars with their indicators
    when the cleaned series has [MIN_BARS] bars, nothing otherwise. *)
Definition frame_of (stock : string) : list IndicatorRow :=
  match fetch_data yf_download stock with
  | Some raw =>
      if Nat.leb MIN_BARS (List.length raw)
      then set_stock stock (add_indicators ta_indicators raw)
      else []
  | None => []
  end.

(** The rows of a frame that carry a symbol. *)
Definition rows_of (stock : string) (df : list IndicatorRow)
  : list IndicatorRow :=
  filter (fun r => String.eqb (Stock r) stock) df.

End Table.

(** A row that meets every call entry threshold but the band. *)
Definition wide_band_row : IndicatorRow :=
  mk_row "RELIANCE.NS" (Rules.example_bar 100)
    (mk_indicators 36 20 20 65 (-20) 40 12 35 15 99).

(** Indicators that meet the call entry rule with the close above MA8. *)
Definition signal_indicators (raw : list Bar) (i : nat) : Indicators :=
  mk_indicators 35 20 20 65 (-20) 40 12 35 15 99.

(** A download of 200 bars of which the first 50 have no close. *)
Definition gappy_download (symbol : string) : list Bar :=
  repeat (mk_bar (mk_timestamp 738000 (mk_time 9 15 0 0))
            100 nan 100 100 100 1000) 50
  ++ repeat (mk_bar (mk_timestamp 738000 (mk_time 10 15 0 0))
               100 100 100 100 100 1000) 150.

End Stocks.

(* ================================================================== *)
(** * kite_trader.py: orders and the cache *)
(* ================================================================== *)

Module Orders.

Import Binary64 KiteTrader.

(** The order [place_entry] places for a symbol. *)
Definition entry_order (config : Config) (symbol0 : string) : Order :=
  mk_order VARIETY_REGULAR (EXCHANGE config) symbol0
    TRANSACTION_TYPE_BUY (ORDER_QTY config) (PRODUCT config)
    ORDER_TYPE_MARKET.

(** An operation keeps a filled instrument cache as it is. *)
Definition keeps_cache {A : Type} (m : M A) : Prop :=
  forall st universe,
    _INSTRUMENTS st = Some universe ->
    _INSTRUMENTS (snd (m st)) = Some universe.

(** The requests an operation sends from [st]: what it appends to the
    trace. *)
Definition sends {A : Type} (m : M A) (st : State) (requests : list Call)
  : Prop :=
  calls (snd (m st)) = calls st ++ requests.



(** [strike_is_nearest] on the [count] whole prices from [n] on. *)
Fixpoint nearest_from (n : Z) (count : nat) : bool :=
  match count with
  | O => true
  | S count' => strike_is_nearest n && nearest_from (n + 1) count'
  end.

(** A broker whose instrument list has changed to an empty one. *)
Definition kite_rolled (spot : float) : Kite :=
  mk_kite (fun _ _ => Some spot) (fun _ _ => Some [])
          (fun _ _ => None) (fun _ => None).

(** A broker that rejects the orders for one symbol and takes the others. *)
Definition kite_rejecting (rejected : string) : Kite :=
  mk_kite (fun _ _ => Some 10523%float)
          (fun _ _ => Some example_universe)
          (fun _ o =>
             if String.eqb (order_tradingsymbol o) rejected then None
             else Some ("order-" ++ order_tradingsymbol o)%string)
          (fun _ =>
             Some [ mk_position "NIFTY2411810500CE" 50;
                    mk_position "NIFTY2411810550CE" 75;
                    mk_position "NIFTY2411810600PE" (-25) ]).

(** A state whose cache holds the example universe. *)
Definition cached_state : State := mk_state (Some example_universe) [] [].

End Orders.

(* ================================================================== *)
(** * Facts on binary64 numbers *)
(* ================================================================== *)

Module Binary64Facts.

Import Binary64.

Local Open Scope Z_scope.

Lemma digits2_pos_bounds (m : positive) :
  2 ^ (Zpos (digits2_pos m) - 1) <= Zpos m < 2 ^ Zpos (digits2_pos m).
Proof.
  induction m as [m IH | m IH | ]; cbn [digits2_pos].
  - rewrite Pos2Z.inj_succ.
    replace (Z.succ (Zpos (digits2_pos m)) - 1) with (Z.succ (Zpos (digits2_pos m) - 1)) by lia.
    rewrite !Z.pow_succ_r by lia. lia.
  - rewrite Pos2Z.inj_succ.
    replace (Z.succ (Zpos (digits2_pos m)) - 1) with (Z.succ (Zpos (digits2_pos m) - 1)) by lia.
    rewrite !Z.pow_succ_r by lia. lia.
  - cbn. lia.
Qed.

(** What validity says of a finite binary64 number. *)
Lemma bounded_inv (m : positive) (e : Z) :
  bounded prec emax m e = true ->
  -1074 <= e <= 971 /\ Zpos m < 2 ^ 53 /\ (-1074 < e -> 2 ^ 52 <= Zpos m).
Proof.
  unfold bounded, canonical_mantissa, fexp, SpecFloat.emin, prec, emax.
  intros H. apply andb_true_iff in H. destruct H as [Hc He].
  apply Z.eqb_eq in Hc. apply Z.leb_le in He.
  pose proof (digits2_pos_bounds m) as [Hlo Hhi].
  set (d := Zpos (digits2_pos m)) in *.
  assert (Hd : 0 < d) by (unfold d; lia).
  split; [lia|]. split.
  - apply Z.lt_le_trans with (1 := Hhi).
    apply Z.pow_le_mono_r; lia.
  - intros Hn. assert (d = 53) by lia. subst d. rewrite H in Hlo. exact Hlo.
Qed.


Local Open Scope Q_scope.

Lemma two_pow_pos (e : Z) : 0 < 2 ^ e.
Proof. apply Qpower_0_lt. reflexivity. Qed.

Lemma two_pow_split (e k : Z) : (0 <= k)%Z ->
  2 ^ (e + k) == inject_Z (2 ^ k) * 2 ^ e.
Proof.
  intros Hk. rewrite Qpower_plus by discriminate.
  rewrite Zpower_Qpower by assumption. apply Qmult_comm.
Qed.

(** Of two valid positive numbers, the one of smaller exponent is smaller. *)
Lemma finite_lt_exponent (m1 m2 : positive) (e1 e2 : Z) :
  bounded prec emax m1 e1 = true ->
  bounded prec emax m2 e2 = true ->
  (e1 < e2)%Z ->
  inject_Z (Zpos m1) * 2 ^ e1 < inject_Z (Zpos m2) * 2 ^ e2.
Proof.
  intros H1 H2 He.
  apply bounded_inv in H1. apply bounded_inv in H2.
  destruct H1 as (Hr1 & Hu1 & _). destruct H2 as (Hr2 & _ & Hl2).
  replace e2 with (e1 + (e2 - e1))%Z by ring.
  rewrite two_pow_split by lia.
  rewrite Qmult_assoc, <- inject_Z_mult.
  apply Qmult_lt_compat_r; [apply two_pow_pos|].
  rewrite <- Zlt_Qlt.
  assert (Hp : (2 ^ 1 <= 2 ^ (e2 - e1))%Z) by (apply Z.pow_le_mono_r; lia).
  assert (Hm : (2 ^ 52 <= Zpos m2)%Z) by (apply Hl2; lia).
  change (2 ^ 1)%Z with 2%Z in Hp.
  apply Z.lt_le_trans with (2 ^ 52 * 2)%Z; [exact Hu1|].
  apply Z.mul_le_mono_nonneg; lia.
Qed.

Lemma finite_compare (m1 m2 : positive) (e1 e2 : Z) :
  bounded prec emax m1 e1 = true ->
  bounded prec emax m2 e2 = true ->
  (inject_Z (Zpos m1) * 2 ^ e1 ?= inject_Z (Zpos m2) * 2 ^ e2) =
  match (e1 ?= e2)%Z with
  | Lt => Lt
  | Gt => Gt
  | Eq => Pos.compare_cont Eq m1 m2
  end.
Proof.
  intros H1 H2. destruct (Z.compare_spec e1 e2) as [He | He | He].
  - subst e2. change (Pos.compare_cont Eq m1 m2) with (Zpos m1 ?= Zpos m2)%Z.
    destruct (Z.compare_spec (Zpos m1) (Zpos m2)) as [Hm | Hm | Hm].
    + apply Qeq_alt. rewrite Hm. reflexivity.
    + apply Qlt_alt. apply Qmult_lt_compat_r; [apply two_pow_pos|].
      now rewrite <- Zlt_Qlt.
    + apply Qgt_alt. apply Qmult_lt_compat_r; [apply two_pow_pos|].
      now rewrite <- Zlt_Qlt.
  - apply Qlt_alt. now apply finite_lt_exponent.
  - apply Qgt_alt. now apply finite_lt_exponent.
Qed.

Lemma finite_pos (m : positive) (e : Z) : 0 < inject_Z (Zpos m) * 2 ^ e.
Proof.
  apply Qmult_lt_0_compat; [|apply two_pow_pos].
  change 0 with (inject_Z 0). now rewrite <- Zlt_Qlt.
Qed.

Lemma finite_neg (m : positive) (e : Z) : - (inject_Z (Zpos m) * 2 ^ e) < 0.
Proof. apply (Qopp_lt_compat 0 (inject_Z (Zpos m) * 2 ^ e)), finite_pos. Qed.

Lemma Qcompare_opp (p q : Q) : (- p ?= - q) = CompOpp (p ?= q).
Proof.
  unfold Qcompare, Qopp; cbn [Qnum Qden].
  rewrite !Z.mul_opp_l, Z.compare_opp. apply Z.compare_antisym.
Qed.

(** The comparison of the specification is the order of the values. *)
Lemma SFcompare_value (x y : spec_float) :
  valid_binary x = true -> valid_binary y = true ->
  SFcompare x y = ecompare (SF2X x) (SF2X y).
Proof.
  destruct x as [sx | sx | | sx mx ex], y as [sy | sy | | sy my ey];
    cbn [SpecFloat.valid_binary SFcompare SF2X ecompare]; intros Hx Hy;
    try reflexivity;
    try (destruct sx; reflexivity); try (destruct sy; reflexivity);
    try (destruct sx, sy; reflexivity).
  - (* zero, finite *)
    f_equal. symmetry. destruct sy; cbn [cond_Qopp].
    + apply Qgt_alt, finite_neg.
    + apply Qlt_alt, finite_pos.
  - f_equal. symmetry. destruct sx; cbn [cond_Qopp].
    + apply Qlt_alt, finite_neg.
    + apply Qgt_alt, finite_pos.
  - f_equal. destruct sx, sy; cbn [cond_Qopp].
    + rewrite Qcompare_opp, finite_compare by assumption.
      destruct (ex ?= ey)%Z; reflexivity.
    + symmetry. apply Qlt_alt.
      apply Qlt_trans with 0; [apply finite_neg | apply finite_pos].
    + symmetry. apply Qgt_alt.
      apply Qlt_trans with 0; [apply finite_neg | apply finite_pos].
    + rewrite finite_compare by assumption. reflexivity.
Qed.


Lemma compare_value (x y : float) :
  SFcompare (Prim2SF x) (Prim2SF y) = ecompare (value x) (value y).
Proof. apply SFcompare_value; apply Prim2SF_valid. Qed.

Lemma ecompare_le (a b : ereal) :
  match ecompare a b with Some (Lt | Eq) => true | _ => false end = true
  <-> ele a b.
Proof.
  destruct a as [| | p |], b as [| | q |]; cbn; try tauto; try easy.
  rewrite Qle_alt. destruct (p ?= q); easy.
Qed.

Lemma ecompare_lt (a b : ereal) :
  match ecompare a b with Some Lt => true | _ => false end = true
  <-> elt a b.
Proof.
  destruct a as [| | p |], b as [| | q |]; cbn; try tauto; try easy.
  rewrite Qlt_alt. destruct (p ?= q); easy.
Qed.

Lemma ecompare_eq (a b : ereal) :
  ecompare a b = Some Eq <-> eeq a b.
Proof.
  destruct a as [| | p |], b as [| | q |]; cbn; try tauto; try easy.
  rewrite Qeq_alt. split; congruence.
Qed.

(** [<=?] and [<?] on floats are the order of the values. *)
Lemma leb_value (x y : float) :
  (x <=? y)%float = true <-> ele (value x) (value y).
Proof.
  rewrite leb_spec. unfold SFleb. rewrite compare_value. apply ecompare_le.
Qed.

Lemma ltb_value (x y : float) :
  (x <? y)%float = true <-> elt (value x) (value y).
Proof.
  rewrite ltb_spec. unfold SFltb. rewrite compare_value. apply ecompare_lt.
Qed.

Lemma Qabs_nonneg (q : Q) : 0 <= q -> Qabs q = q /\ Qabs (- q) = q.
Proof.
  destruct q as [n d]. unfold Qle, Qabs, Qopp; cbn [Qnum Qden]. intros H.
  rewrite Z.abs_opp, Z.abs_eq by lia. split; reflexivity.
Qed.

Lemma value_abs (x : float) : value (abs x) = eabs (value x).
Proof.
  unfold value. rewrite abs_spec.
  destruct (Prim2SF x) as [s | s | | s m e]; cbn [SFabs SF2X eabs];
    try reflexivity.
  - destruct s; reflexivity.
  - f_equal. symmetry.
    destruct (Qabs_nonneg _ (Qlt_le_weak _ _ (finite_pos m e))) as [Hp Hn].
    destruct s; assumption.
Qed.

(** The order does not see which fraction stands for a value. *)
Lemma ele_eeq_r (a b b' : ereal) : eeq b b' -> ele a b <-> ele a b'.
Proof.
  destruct a as [| | p |], b as [| | q |], b' as [| | q' |]; cbn;
    try tauto. intros H. now rewrite H.
Qed.

Lemma ele_eeq_l (a a' b : ereal) : eeq a a' -> ele a b <-> ele a' b.
Proof.
  destruct a as [| | p |], a' as [| | p' |], b as [| | q |]; cbn;
    try tauto. intros H. now rewrite H.
Qed.

Lemma elt_eeq_r (a b b' : ereal) : eeq b b' -> elt a b <-> elt a b'.
Proof.
  destruct a as [| | p |], b as [| | q |], b' as [| | q' |]; cbn;
    try tauto. intros H. now rewrite H.
Qed.

Lemma elt_eeq_l (a a' b : ereal) : eeq a a' -> elt a b <-> elt a' b.
Proof.
  destruct a as [| | p |], a' as [| | p' |], b as [| | q |]; cbn;
    try tauto. intros H. now rewrite H.
Qed.

Lemma ele_trans (a b c : ereal) : ele a b -> ele b c -> ele a c.
Proof.
  destruct a as [| | p |], b as [| | q |], c as [| | r |]; cbn;
    try tauto. apply Qle_trans.
Qed.

Lemma ele_elt_total (a b : ereal) :
  a <> NaN -> b <> NaN -> ele a b \/ elt b a.
Proof.
  destruct a as [| | p |], b as [| | q |]; cbn; try tauto.
  intros _ _. destruct (Qlt_le_dec q p); tauto.
Qed.

Lemma elt_not_ele (a b : ereal) : elt a b -> ~ ele b a.
Proof.
  destruct a as [| | p |], b as [| | q |]; cbn; try tauto.
  apply Qlt_not_le.
Qed.

(** Comparisons with a constant [c] whose value is the integer [n]. *)
Lemma leb_const_r (x c : float) (n : Z) :
  eeq (value c) (of_Z n) ->
  (x <=? c)%float = true <-> ele (value x) (of_Z n).
Proof. intros H. rewrite leb_value. now apply ele_eeq_r. Qed.

Lemma leb_const_l (x c : float) (n : Z) :
  eeq (value c) (of_Z n) ->
  (c <=? x)%float = true <-> ele (of_Z n) (value x).
Proof. intros H. rewrite leb_value. now apply ele_eeq_l. Qed.

Lemma ltb_const_r (x c : float) (n : Z) :
  eeq (value c) (of_Z n) ->
  (x <? c)%float = true <-> elt (value x) (of_Z n).
Proof. intros H. rewrite ltb_value. now apply elt_eeq_r. Qed.

(** A comparison with [nan] is false. *)
Lemma leb_nan_l (x y : float) : value x = NaN -> (x <=? y)%float = false.
Proof.
  intros H. apply not_true_is_false. rewrite leb_value, H. cbn. tauto.
Qed.

Lemma leb_nan_r (x y : float) : value y = NaN -> (x <=? y)%float = false.
Proof.
  intros H. apply not_true_is_false. rewrite leb_value, H.
  destruct (value x); cbn; tauto.
Qed.

Lemma ltb_nan_l (x y : float) : value x = NaN -> (x <? y)%float = false.
Proof.
  intros H. apply not_true_is_false. rewrite ltb_value, H. cbn. tauto.
Qed.

Lemma ltb_nan_r (x y : float) : value y = NaN -> (x <? y)%float = false.
Proof.
  intros H. apply not_true_is_false. rewrite ltb_value, H.
  destruct (value x); cbn; tauto.
Qed.

Local Open Scope Z_scope.

Lemma shr_1_nonneg (mrs : shr_record) :
  0 <= shr_m mrs -> 0 <= shr_m (shr_1 mrs).
Proof.
  destruct mrs as [m r s]. destruct m as [| [p | p |] | [p | p |]]; cbn; lia.
Qed.

Lemma iter_shr_1_nonneg (p : positive) : forall mrs : shr_record,
  0 <= shr_m mrs -> 0 <= shr_m (iter_pos shr_1 p mrs).
Proof.
  induction p as [p IH | p IH |]; cbn [iter_pos]; intros mrs H.
  - apply IH, IH, shr_1_nonneg, H.
  - apply IH, IH, H.
  - apply shr_1_nonneg, H.
Qed.

Lemma shr_fexp_nonneg (m e : Z) (l : location) :
  0 <= m -> 0 <= shr_m (fst (shr_fexp prec emax m e l)).
Proof.
  intros H. unfold shr_fexp, shr.
  assert (H0 : 0 <= shr_m (shr_record_of_loc m l))
    by (destruct l as [| []]; exact H).
  destruct (fexp prec emax (Zdigits2 m + e) - e); cbn [fst]; try exact H0.
  apply iter_shr_1_nonneg, H0.
Qed.

Lemma round_nearest_even_nonneg (m : Z) (l : location) :
  0 <= m -> 0 <= round_nearest_even m l.
Proof.
  intros H. destruct l as [| []]; cbn [round_nearest_even]; try lia.
  destruct (Z.even m); lia.
Qed.

(** Rounding a non-negative mantissa never gives [nan]. *)
Lemma binary_round_aux_not_nan (sx : bool) (mx ex : Z) (lx : location) :
  0 <= mx -> binary_round_aux prec emax sx mx ex lx <> S754_nan.
Proof.
  intros H. unfold binary_round_aux.
  pose proof (shr_fexp_nonneg mx ex lx H) as H1.
  destruct (shr_fexp prec emax mx ex lx) as [mrs' e']. cbn [fst] in H1.
  pose proof (shr_fexp_nonneg _ e' loc_Exact
                (round_nearest_even_nonneg _ (loc_of_shr_record mrs') H1)) as H2.
  destruct (shr_fexp prec emax _ e' loc_Exact) as [mrs'' e'']. cbn [fst] in H2.
  destruct (shr_m mrs'') as [| m | m]; try discriminate; try lia.
  destruct (e'' <=? emax - prec); discriminate.
Qed.

Lemma binary_normalize_not_nan (m e : Z) (szero : bool) :
  binary_normalize prec emax m e szero <> S754_nan.
Proof.
  destruct m as [| m | m]; cbn [binary_normalize]; try discriminate;
    unfold binary_round;
    destruct (shl_align _ _ _) as [mz ez];
    apply binary_round_aux_not_nan; lia.
Qed.

Lemma SF2X_nan (x : spec_float) : SF2X x = NaN <-> x = S754_nan.
Proof.
  destruct x as [s | s | | s m e]; cbn; split; try easy; destruct s; easy.
Qed.

Lemma SF2X_fin (x : spec_float) (q : Q) :
  SF2X x = Fin q -> (exists s, x = S754_zero s) \/ (exists s m e, x = S754_finite s m e).
Proof.
  destruct x as [s | s | | s m e]; cbn; try easy; eauto.
  destruct s; easy.
Qed.

(** The difference of two numbers is a number or an infinity. *)
Lemma sub_defined (x y : float) :
  finite x -> finite y -> defined (x - y)%float.
Proof.
  intros [p Hx] [q Hy]. unfold defined, value in *.
  rewrite sub_spec, SF2X_nan. unfold SF64sub.
  apply SF2X_fin in Hx, Hy.
  destruct Hx as [[sx ->] | (sx & mx & ex & ->)],
           Hy as [[sy ->] | (sy & my & ey & ->)]; cbn [SFsub];
    try discriminate; try (destruct sx, sy; discriminate).
  apply binary_normalize_not_nan.
Qed.

(** The difference with [nan] is [nan]. *)
Lemma sub_nan (x y : float) :
  value x = NaN \/ value y = NaN -> value (x - y)%float = NaN.
Proof.
  unfold value. rewrite !SF2X_nan, sub_spec. unfold SF64sub.
  intros [-> | ->]; [reflexivity|]. destruct (Prim2SF x); reflexivity.
Qed.

Local Close Scope Z_scope.

End Binary64Facts.

(* ================================================================== *)
(** * app.py: the flags of the strategy *)
(* ================================================================== *)

Module AppFacts.

Import Binary64 Binary64Facts App Rules.

(** The column-wise frame operations compute each row on its own. *)
Lemma apply_strategy_rows (df : list IndicatorRow) :
  apply_strategy df = map strategy_row df.
Proof.
  unfold apply_strategy, s_between, s_and, s_or, s_le, s_ge, s_lt, s_abs,
    s_sub, s_ltb, s_gtb, column.
  induction df as [| r df IH]; cbn [map zip_with set_flags].
  - reflexivity.
  - rewrite IH. reflexivity.
Qed.

Lemma apply_strategy_keeps_rows (df : list IndicatorRow) :
  map row (apply_strategy df) = df.
Proof.
  rewrite apply_strategy_rows, map_map. cbn [strategy_row row].
  apply map_id.
Qed.

Lemma in_apply_strategy (df : list IndicatorRow) (s : SignalRow) :
  In s (apply_strategy df) <-> exists r, In r df /\ s = strategy_row r.
Proof.
  rewrite apply_strategy_rows, in_map_iff. split; intros (r & H1 & H2); eauto.
Qed.

(** The thresholds of the strategy are the integers they are written as. *)
Ltac const_value := vm_compute; reflexivity.

Lemma between_rule (x left right : float) (l h : Z) :
  eeq (value left) (of_Z l) -> eeq (value right) (of_Z h) ->
  between x left right = true <-> (of_Z l <= x <= of_Z h)%E.
Proof.
  intros Hl Hh. unfold between.
  rewrite andb_true_iff, (leb_const_l x left l Hl), (leb_const_r x right h Hh). tauto.
Qed.

Lemma call_entry_row_rule (r : Indicators) :
  call_entry_row r = true <-> call_entry_rule r.
Proof.
  unfold call_entry_row, call_entry_rule.
  rewrite !andb_true_iff.
  rewrite (between_rule (RSI20 r) 65 100 65 100) by const_value.
  rewrite (between_rule (WILLR28 r) (-20) 0 (-20) 0) by const_value.
  rewrite (leb_const_r (BB60 r) 35 35) by const_value.
  rewrite (leb_const_l (plusDI6 r) 40 40) by const_value.
  rewrite (leb_const_r (minusDI6 r) 12 12) by const_value.
  rewrite (leb_const_l (plusDI20 r) 35 35) by const_value.
  rewrite (leb_const_r (minusDI20 r) 15 15) by const_value.
  tauto.
Qed.


Lemma put_entry_row_rule (r : Indicators) :
  put_entry_row r = true <-> put_entry_rule r.
Proof.
  unfold put_entry_row, put_entry_rule.
  rewrite !andb_true_iff.
  rewrite (between_rule (RSI20 r) 1 40 1 40) by const_value.
  rewrite (between_rule (WILLR28 r) (-100) (-80) (-100) (-80)) by const_value.
  rewrite (leb_const_r (BB60 r) 35 35) by const_value.
  rewrite (leb_const_l (minusDI6 r) 35 35) by const_value.
  rewrite (leb_const_r (plusDI6 r) 15 15) by const_value.
  rewrite (leb_const_l (minusDI20 r) 30 30) by const_value.
  rewrite (leb_const_r (plusDI20 r) 15 15) by const_value.
  tauto.
Qed.

Lemma di_diff_lt_rule (r : Indicators) :
  (di_diff_row r <? 10)%float = true <-> (di_gap r < of_Z 10)%E.
Proof.
  unfold di_diff_row, di_gap.
  rewrite (ltb_const_r _ 10 10) by const_value.
  now rewrite value_abs.
Qed.

Lemma call_exit_row_rule (r : IndicatorRow) :
  call_exit_row r = true <-> call_exit_rule r.
Proof.
  unfold call_exit_row, call_exit_rule.
  now rewrite orb_true_iff, di_diff_lt_rule, ltb_value.
Qed.

Lemma put_exit_row_rule (r : IndicatorRow) :
  put_exit_row r = true <-> put_exit_rule r.
Proof.
  unfold put_exit_row, put_exit_rule.
  now rewrite orb_true_iff, di_diff_lt_rule, ltb_value.
Qed.

(** The rows of the frame after [apply_strategy]: a property of every
    [strategy_row] holds of each of them. *)
Lemma Forall_apply_strategy (P : SignalRow -> Prop) (df : list IndicatorRow) :
  (forall r, P (strategy_row r)) -> Forall P (apply_strategy df).
Proof.
  intros H. rewrite apply_strategy_rows. apply Forall_forall.
  intros s Hs. apply in_map_iff in Hs. destruct Hs as (r & <- & _). apply H.
Qed.

(** C1: for every row of the frame, CALL_ENTRY and PUT_ENTRY are true
    exactly when the seven threshold conditions of the rule hold of the
    values of the row, every bound included; each row of the frame gets
    its flags. *)
Theorem entry_flags_follow_rules (df : list IndicatorRow) :
  map row (apply_strategy df) = df /\
  Forall (fun s : SignalRow =>
            (CALL_ENTRY s = true <-> call_entry_rule s) /\
            (PUT_ENTRY s = true <-> put_entry_rule s))
         (apply_strategy df).
Proof.
  split; [apply apply_strategy_keeps_rows|].
  apply Forall_apply_strategy. intros r. cbn [strategy_row CALL_ENTRY PUT_ENTRY row].
  split; [apply call_entry_row_rule | apply put_entry_row_rule].
Qed.

(** C2: for every row of the frame, CALL_EXIT is true exactly when
    |+DI20 - -DI20| < 10 or close < MA8, and PUT_EXIT exactly when
    |+DI20 - -DI20| < 10 or close > MA8; a row with close = 100, MA8 = 101,
    +DI20 = 50 and -DI20 = 10 has CALL_EXIT true and PUT_EXIT false. *)
Theorem exit_flags_follow_rules (df : list IndicatorRow) :
  map row (apply_strategy df) = df /\
  Forall (fun s : SignalRow =>
            (CALL_EXIT s = true <-> call_exit_rule s) /\
            (PUT_EXIT s = true <-> put_exit_rule s))
         (apply_strategy df) /\
  Forall (fun s : SignalRow =>
            Close s = 100%float -> MA8 s = 101%float ->
            plusDI20 s = 50%float -> minusDI20 s = 10%float ->
            CALL_EXIT s = true /\ PUT_EXIT s = false)
         (apply_strategy df).
Proof.
  split; [apply apply_strategy_keeps_rows|].
  split; apply Forall_apply_strategy; intros r;
    cbn [strategy_row CALL_EXIT PUT_EXIT row].
  - split; [apply call_exit_row_rule | apply put_exit_row_rule].
  - unfold call_exit_row, put_exit_row, di_diff_row.
    intros -> -> -> ->. split; reflexivity.
Qed.

(** C3: no row of the frame has CALL_ENTRY and PUT_ENTRY both true,
    whatever the values of its indicators: no RSI20 is in [65,100] and in
    [1,40]. *)
Theorem entries_exclusive (df : list IndicatorRow) :
  map row (apply_strategy df) = df /\
  (forall x : float, between x 65 100 && between x 1 40 = false) /\
  Forall (fun s : SignalRow => ~ (CALL_ENTRY s = true /\ PUT_ENTRY s = true))
         (apply_strategy df).
Proof.
  assert (Hrsi : forall x : float, between x 65 100 && between x 1 40 = false).
  { intros x. apply not_true_is_false. intros H.
    apply andb_true_iff in H. destruct H as [Hc Hp].
    apply (between_rule x 65 100 65 100) in Hc; [|const_value..].
    apply (between_rule x 1 40 1 40) in Hp; [|const_value..].
    destruct Hc as [Hc _], Hp as [_ Hp].
    pose proof (ele_trans _ _ _ Hc Hp) as H. cbn in H. now apply H. }
  split; [apply apply_strategy_keeps_rows|]. split; [exact Hrsi|].
  apply Forall_apply_strategy. intros r.
  cbn [strategy_row CALL_ENTRY PUT_ENTRY row].
  intros [Hc Hp]. specialize (Hrsi (RSI20 r)).
  unfold call_entry_row in Hc. unfold put_entry_row in Hp.
  rewrite !andb_true_iff in Hc, Hp.
  destruct Hc as [[[[[[_ Hc] _] _] _] _] _].
  destruct Hp as [[[[[[_ Hp] _] _] _] _] _].
  rewrite Hc, Hp in Hrsi. discriminate.
Qed.

(** Witness of C2: the frame of the one row close = 100, MA8 = 101,
    +DI20 = 50, -DI20 = 10. *)
Lemma exit_flags_follow_rules_witness :
  CALL_EXIT (strategy_row exit_example_row) = true /\
  PUT_EXIT (strategy_row exit_example_row) = false.
Proof.
  exact (Forall_inv
           (proj2 (proj2 (exit_flags_follow_rules [exit_example_row])))
           eq_refl eq_refl eq_refl eq_refl).
Defined.

(** The bounds of the entry rules are included. *)
Example entry_boundaries :
  map CALL_ENTRY (apply_strategy [call_boundary_row; put_boundary_row])
    = [true; false] /\
  map PUT_ENTRY (apply_strategy [call_boundary_row; put_boundary_row])
    = [false; true].
Proof. split; reflexivity. Qed.

Lemma di_diff_nan (r : Indicators) :
  di_undefined r -> (di_diff_row r <? 10)%float = false.
Proof.
  intros H. apply ltb_nan_l. unfold di_diff_row.
  rewrite value_abs, sub_nan by exact H. reflexivity.
Qed.

Lemma entry_nan (r : Indicators) :
  entry_input_undefined r ->
  call_entry_row r = false /\ put_entry_row r = false.
Proof.
  unfold entry_input_undefined, undefined, call_entry_row, put_entry_row,
    between.
  intros H.
  repeat match type of H with _ \/ _ => destruct H as [H | H] end;
    rewrite ?(leb_nan_l _ _ H), ?(leb_nan_r _ _ H);
    rewrite ?andb_false_r, ?andb_false_l; split; reflexivity.
Qed.

(** C4, as worded, fails: with +DI20 undefined and close below MA8,
    CALL_EXIT is true. *)
Lemma undefined_input_counterexample :
  undefined (plusDI20 nan_di_row) /\
  map CALL_EXIT (apply_strategy [nan_di_row]) = [true] /\
  ~ undefined_input_makes_flag_false.
Proof.
  assert (Hnan : undefined (plusDI20 nan_di_row)) by reflexivity.
  split; [exact Hnan|]. split; [reflexivity|].
  intros H. destruct (H nan_di_row) as [_ Hx].
  destruct Hx as [Hx _]; [left; left; exact Hnan|]. discriminate Hx.
Qed.

(** C4, amended: every row gets its four flags; a comparison with an
    undefined operand is false, so both entry flags are false when an
    input of the entry rules is undefined, and an exit flag with an
    undefined input is its other branch: with +DI20 or -DI20 undefined,
    CALL_EXIT is close < MA8 and PUT_EXIT is close > MA8; with Close or MA8
    undefined, both are |+DI20 - -DI20| < 10; with one undefined on each
    side both are false. *)
Theorem undefined_inputs_fail_comparisons (df : list IndicatorRow) :
  map row (apply_strategy df) = df /\
  Forall (fun s : SignalRow =>
            (entry_input_undefined s ->
             CALL_ENTRY s = false /\ PUT_ENTRY s = false) /\
            (di_undefined s ->
             CALL_EXIT s = (Close s <? MA8 s)%float /\
             PUT_EXIT s = (MA8 s <? Close s)%float) /\
            (price_undefined s ->
             CALL_EXIT s = (di_diff_row s <? 10)%float /\
             PUT_EXIT s = (di_diff_row s <? 10)%float) /\
            (di_undefined s -> price_undefined s ->
             CALL_EXIT s = false /\ PUT_EXIT s = false))
         (apply_strategy df).
Proof.
  split; [apply apply_strategy_keeps_rows|].
  apply Forall_apply_strategy. intros r.
  cbn [strategy_row CALL_ENTRY PUT_ENTRY CALL_EXIT PUT_EXIT row].
  assert (Hprice : price_undefined r ->
            (Close r <? MA8 r)%float = false /\
            (MA8 r <? Close r)%float = false).
  { intros [H | H]; split;
      first [apply ltb_nan_l, H | apply ltb_nan_r, H]. }
  unfold call_exit_row, put_exit_row.
  split; [apply entry_nan|]. split; [|split].
  - intros H. rewrite (di_diff_nan r H). split; reflexivity.
  - intros H. destruct (Hprice H) as [-> ->].
    rewrite orb_false_r. split; reflexivity.
  - intros Hd Hp. destruct (Hprice Hp) as [-> ->].
    rewrite (di_diff_nan r Hd). split; reflexivity.
Qed.

(** Witness of the amended C4: the row with +DI20 undefined. *)
Lemma undefined_inputs_witness :
  CALL_ENTRY (strategy_row nan_di_row) = false /\
  PUT_ENTRY (strategy_row nan_di_row) = false.
Proof.
  refine (proj1 (Forall_inv
            (proj2 (undefined_inputs_fail_comparisons [nan_di_row]))) _).
  right; right; right; right; right; left. reflexivity.
Defined.


Lemma elt_trichotomy (a b : ereal) :
  a <> NaN -> b <> NaN -> (a < b)%E \/ (a == b)%E \/ (b < a)%E.
Proof.
  destruct a as [| | p |], b as [| | q |]; cbn; try tauto.
  intros _ _. destruct (Q_dec p q) as [[H | H] | H]; tauto.
Qed.

Lemma eeq_not_elt (a b : ereal) :
  (a == b)%E -> ~ (a < b)%E /\ ~ (b < a)%E.
Proof.
  destruct a as [| | p |], b as [| | q |]; cbn; try tauto.
  intros H. rewrite H. split; apply Qlt_irrefl.
Qed.

Lemma ltb_false (x y : float) :
  (x <? y)%float = false <-> ~ (value x < value y)%E.
Proof. rewrite <- ltb_value. symmetry. apply not_true_iff_false. Qed.

(** Neither close < MA8 nor close > MA8: the two are equal. *)
Lemma price_flat (r : IndicatorRow) :
  defined (Close r) -> defined (MA8 r) ->
  (Close r <? MA8 r)%float = false /\ (MA8 r <? Close r)%float = false
  <-> (Close r == MA8 r)%E.
Proof.
  intros Hc Hm. rewrite !ltb_false. split.
  - intros [H1 H2]. destruct (elt_trichotomy _ _ Hc Hm) as [H | [H | H]];
      tauto.
  - apply eeq_not_elt.
Qed.

Lemma di_gap_defined (r : Indicators) :
  finite (plusDI20 r) -> finite (minusDI20 r) -> di_gap r <> NaN.
Proof.
  intros Hp Hm. pose proof (sub_defined _ _ Hp Hm) as H.
  unfold di_gap, defined in *. destruct (value _); cbn; congruence.
Qed.

Lemma di_gap_wide (r : Indicators) :
  finite (plusDI20 r) -> finite (minusDI20 r) ->
  (di_diff_row r <? 10)%float = false <-> (of_Z 10 <= di_gap r)%E.
Proof.
  intros Hp Hm. rewrite <- not_true_iff_false, di_diff_lt_rule.
  pose proof (di_gap_defined r Hp Hm) as Hd. split.
  - intros H. destruct (ele_elt_total (of_Z 10) (di_gap r)); try tauto.
    discriminate.
  - intros H1 H2. exact (elt_not_ele _ _ H2 H1).
Qed.

(** C9: on a row whose Close and MA8 are defined and whose +DI20 and -DI20
    are numbers, both exit flags are false exactly when close equals MA8
    and |+DI20 - -DI20| >= 10; when close differs from MA8 one of the two
    is true; when |+DI20 - -DI20| < 10 both are true. *)
Theorem exit_flags_related (df : list IndicatorRow) :
  map row (apply_strategy df) = df /\
  Forall (fun s : SignalRow =>
            defined (Close s) -> defined (MA8 s) ->
            finite (plusDI20 s) -> finite (minusDI20 s) ->
            (CALL_EXIT s = false /\ PUT_EXIT s = false <->
             (Close s == MA8 s)%E /\ (of_Z 10 <= di_gap s)%E) /\
            (~ (Close s == MA8 s)%E ->
             CALL_EXIT s = true \/ PUT_EXIT s = true) /\
            ((di_gap s < of_Z 10)%E ->
             CALL_EXIT s = true /\ PUT_EXIT s = true))
         (apply_strategy df).
Proof.
  split; [apply apply_strategy_keeps_rows|].
  apply Forall_apply_strategy. intros r.
  cbn [strategy_row CALL_EXIT PUT_EXIT row].
  intros Hc Hm Hp Hn. unfold call_exit_row, put_exit_row.
  pose proof (price_flat r Hc Hm) as Hflat.
  pose proof (di_gap_wide r Hp Hn) as Hwide.
  rewrite !orb_false_iff. split; [|split].
  - tauto.
  - intros Hne.
    destruct (Close r <? MA8 r)%float eqn:E1; [left; apply orb_true_r|].
    destruct (MA8 r <? Close r)%float eqn:E2; [right; apply orb_true_r|].
    tauto.
  - intros H. apply di_diff_lt_rule in H. rewrite H. split; reflexivity.
Qed.

(** Witness of C9: close = MA8 = 100, +DI20 = 50, -DI20 = 10. *)
Lemma exit_flags_related_witness :
  CALL_EXIT (strategy_row flat_row) = false /\
  PUT_EXIT (strategy_row flat_row) = false.
Proof.
  assert (Hd : defined 100%float) by (intros H; vm_compute in H; discriminate).
  assert (H50 : finite 50%float) by (eexists; vm_compute; reflexivity).
  assert (H10 : finite 10%float) by (eexists; vm_compute; reflexivity).
  apply (proj1 (Forall_inv (proj2 (exit_flags_related [flat_row]))
                  Hd Hd H50 H10)).
  split; vm_compute; [reflexivity | discriminate].
Defined.

(** Outside the numbers: with both DI20 columns infinite the difference is
    undefined, and a row with close = MA8 has both exit flags false. *)
Example exit_flags_infinite_di :
  undefined (plusDI20 infinite_di_row - minusDI20 infinite_di_row)%float /\
  map CALL_EXIT (apply_strategy [infinite_di_row]) = [false] /\
  map PUT_EXIT (apply_strategy [infinite_di_row]) = [false].
Proof. repeat split; reflexivity. Qed.

End AppFacts.

(* ================================================================== *)
(** * app.py: the aggregation of the symbols *)
(* ================================================================== *)

Module PipelineFacts.

Import Binary64 Binary64Facts App Rules.

Section Aggregator.

Variable yf_download : string -> list Bar.
Variable ta_indicators : list Bar -> nat -> Indicators.

Abbreviation fetch_data := (fetch_data yf_download).
Abbreviation add_indicators := (add_indicators ta_indicators).
Abbreviation pipeline_step := (pipeline_step yf_download ta_indicators).
Abbreviation pipeline_frames := (pipeline_frames yf_download ta_indicators).
Abbreviation aggregated := (aggregated yf_download ta_indicators).
Abbreviation pipeline := (pipeline yf_download ta_indicators).

Abbreviation skipped := (skipped yf_download).

Lemma fold_pipeline_step (stocks : list string) :
  forall frames,
    fold_left pipeline_step stocks frames
    = frames ++ fold_left pipeline_step stocks [].
Proof.
  induction stocks as [| stock stocks IH]; intros frames; cbn [fold_left].
  - now rewrite app_nil_r.
  - rewrite IH, (IH (pipeline_step [] stock)), app_assoc. f_equal.
    unfold App.pipeline_step. destruct (fetch_data stock) as [raw |];
      [destruct (Nat.leb MIN_BARS (List.length raw))|];
      now rewrite ?app_nil_r.
Qed.

Lemma pipeline_frames_cons (stock : string) (stocks : list string) :
  pipeline_frames (stock :: stocks)
  = pipeline_step [] stock ++ pipeline_frames stocks.
Proof. unfold App.pipeline_frames. cbn [fold_left]. apply fold_pipeline_step. Qed.

Lemma pipeline_frames_app (l1 l2 : list string) :
  pipeline_frames (l1 ++ l2) = pipeline_frames l1 ++ pipeline_frames l2.
Proof.
  unfold App.pipeline_frames. rewrite fold_left_app. apply fold_pipeline_step.
Qed.

Lemma pipeline_step_skipped (stock : string) :
  skipped stock -> pipeline_step [] stock = [].
Proof.
  unfold App.pipeline_step.
  intros [-> | (raw & -> & Hlen)]; [reflexivity|].
  apply Nat.leb_gt in Hlen. now rewrite Hlen.
Qed.

Lemma pipeline_step_included (stock : string) (raw : list Bar) :
  fetch_data stock = Some raw -> (MIN_BARS <= List.length raw)%nat ->
  pipeline_step [] stock = [set_stock stock (add_indicators raw)].
Proof.
  unfold App.pipeline_step. intros -> Hlen.
  apply Nat.leb_le in Hlen. now rewrite Hlen.
Qed.

(** The rows of a frame carry the symbol they were fetched for. *)
Lemma in_pipeline_frames (stocks : list string) (frame : list IndicatorRow) :
  In frame (pipeline_frames stocks) ->
  exists stock raw,
    In stock stocks /\ fetch_data stock = Some raw /\
    (MIN_BARS <= List.length raw)%nat /\
    frame = set_stock stock (add_indicators raw).
Proof.
  induction stocks as [| stock stocks IH].
  - intros [].
  - rewrite pipeline_frames_cons, in_app_iff. intros [H | H].
    + unfold App.pipeline_step in H.
      destruct (fetch_data stock) as [raw |] eqn:E; [|destruct H].
      destruct (Nat.leb MIN_BARS (List.length raw)) eqn:L; [|destruct H].
      destruct H as [<- | []]. exists stock, raw.
      apply Nat.leb_le in L. cbn. auto.
    + destruct (IH H) as (s & raw & Hin & Hrest).
      exists s, raw. cbn. auto.
Qed.

Lemma add_columns_bars (raw rest : list Bar) (i : nat) :
  map fst (add_columns ta_indicators raw i rest) = rest.
Proof.
  revert i. induction rest as [| b rest IH]; intros i; cbn; [reflexivity|].
  now rewrite IH.
Qed.

Lemma set_stock_bars (stock : string) (raw : list Bar) :
  map bar (set_stock stock (add_indicators raw)) = raw /\
  Forall (fun r => Stock r = stock) (set_stock stock (add_indicators raw)).
Proof.
  unfold set_stock, App.add_indicators. split.
  - rewrite map_map. cbn [bar]. apply add_columns_bars.
  - apply Forall_forall. intros r Hr. apply in_map_iff in Hr.
    now destruct Hr as (bi & <- & _).
Qed.

Lemma in_aggregated (stocks : list string) (r : IndicatorRow) :
  In r (aggregated stocks) ->
  exists raw, fetch_data (Stock r) = Some raw /\
              (MIN_BARS <= List.length raw)%nat /\ In (Stock r) stocks.
Proof.
  unfold App.aggregated. rewrite in_concat.
  intros (frame & Hframe & Hr).
  apply in_pipeline_frames in Hframe.
  destruct Hframe as (stock & raw & Hin & Hfetch & Hlen & ->).
  destruct (set_stock_bars stock raw) as [_ Hs].
  rewrite Forall_forall in Hs. rewrite (Hs r Hr). eauto.
Qed.

Lemma skipped_not_included (stock : string) (raw : list Bar) :
  skipped stock -> fetch_data stock = Some raw ->
  (MIN_BARS <= List.length raw)%nat -> False.
Proof.
  intros [H | (raw' & H & Hlen)] Hf Hl; rewrite Hf in H; [discriminate|].
  injection H as <-. lia.
Qed.

(** C8: a symbol whose series is missing (or empty) or has fewer than 160
    bars is passed over: the loop goes on as if the symbol were not in the
    list, and no row of the aggregated table, nor of the frame the
    dashboard reads, carries it; a symbol of the list with at least 160
    bars has its frame in the table, one row for each of its bars. *)
Theorem short_series_skipped (stocks : list string) (stock : string) :
  (skipped stock ->
   (forall l1 l2, stocks = l1 ++ stock :: l2 ->
      pipeline_frames stocks = pipeline_frames (l1 ++ l2)) /\
   (forall r, In r (aggregated stocks) -> Stock r <> stock) /\
   (forall df, pipeline stocks = Dashboard df ->
      forall s : SignalRow, In s df -> Stock s <> stock)) /\
  (forall raw, In stock stocks -> fetch_data stock = Some raw ->
     (MIN_BARS <= List.length raw)%nat ->
     In (set_stock stock (add_indicators raw)) (pipeline_frames stocks) /\
     map bar (set_stock stock (add_indicators raw)) = raw /\
     (forall b, In b raw ->
        exists r, In r (aggregated stocks) /\ Stock r = stock /\ bar r = b)).
Proof.
  split.
  - intros Hskip.
    assert (Hagg : forall r, In r (aggregated stocks) -> Stock r <> stock).
    { intros r Hr <-. apply in_aggregated in Hr.
      destruct Hr as (raw & Hf & Hl & _).
      exact (skipped_not_included _ raw Hskip Hf Hl). }
    split; [|split; [exact Hagg|]].
    + intros l1 l2 ->.
      rewrite !pipeline_frames_app, pipeline_frames_cons.
      now rewrite (pipeline_step_skipped _ Hskip).
    + unfold App.pipeline. intros df Hdf s Hs.
      fold (pipeline_frames stocks) in Hdf.
      destruct (pipeline_frames stocks) as [| f fs] eqn:E; [discriminate|].
      injection Hdf as <-. apply filter_In in Hs. destruct Hs as [Hs _].
      rewrite AppFacts.apply_strategy_rows in Hs. apply in_map_iff in Hs.
      destruct Hs as (r & <- & Hr). cbn [strategy_row row].
      apply Hagg. unfold App.aggregated.
      fold (pipeline_frames stocks). now rewrite E.
  - intros raw Hin Hf Hl.
    assert (Hframe : In (set_stock stock (add_indicators raw))
                        (pipeline_frames stocks)).
    { apply in_split in Hin. destruct Hin as (l1 & l2 & ->).
      rewrite pipeline_frames_app, pipeline_frames_cons,
        (pipeline_step_included _ raw Hf Hl).
      apply in_or_app. right. left. reflexivity. }
    destruct (set_stock_bars stock raw) as [Hb Hs].
    split; [exact Hframe|]. split; [exact Hb|].
    intros b Hbin. rewrite <- Hb in Hbin. apply in_map_iff in Hbin.
    destruct Hbin as (r & Hr1 & Hr2). exists r.
    rewrite Forall_forall in Hs. split; [|split; auto].
    unfold App.aggregated. apply in_concat. eauto.
Qed.

End Aggregator.

(** Witness of C8: of the symbols INFY.NS (159 bars), TCS.NS (160 bars) and
    WIPRO.NS (no data), only TCS.NS reaches the table. *)
Lemma short_series_skipped_witness :
  (forall r,
     In r (aggregated example_download example_indicators example_stocks) ->
     Stock r <> "INFY.NS"%string) /\
  In (set_stock "TCS.NS"
        (add_indicators example_indicators (repeat (example_bar 100) 160)))
     (pipeline_frames example_download example_indicators example_stocks).
Proof.
  split.
  - apply (proj1 (short_series_skipped example_download example_indicators
                    example_stocks "INFY.NS")).
    right. exists (repeat (example_bar 100) 159). split; [reflexivity|].
    rewrite repeat_length. unfold MIN_BARS. lia.
  - apply (proj2 (short_series_skipped example_download example_indicators
                    example_stocks "TCS.NS")).
    + right. left. reflexivity.
    + reflexivity.
    + rewrite repeat_length. unfold MIN_BARS. lia.
Defined.

End PipelineFacts.

(* ================================================================== *)
(** * kite_trader.py: resolution, entries and exits *)
(* ================================================================== *)

Module KiteFacts.

Import Binary64 Binary64Facts KiteTrader.

(** ** Dates and the nearest expiry *)

Lemma date_leb_spec (a b : date) :
  date_leb a b = true <->
  (year a < year b \/
   year a = year b /\
   (month a < month b \/ month a = month b /\ day a <= day b))%Z.
Proof.
  unfold date_leb, date_compare.
  destruct (Z.compare_spec (year a) (year b));
    destruct (Z.compare_spec (month a) (month b));
    destruct (Z.compare_spec (day a) (day b));
    split; intros; try discriminate; try reflexivity; lia.
Qed.

Lemma date_eqb_eq (a b : date) : date_eqb a b = true <-> a = b.
Proof.
  unfold date_eqb, date_compare. split.
  - destruct a as [ya ma da], b as [yb mb db]; cbn.
    destruct (Z.compare_spec ya yb); try discriminate.
    destruct (Z.compare_spec ma mb); try discriminate.
    destruct (Z.compare_spec da db); try discriminate.
    intros _. congruence.
  - intros ->. now rewrite !Z.compare_refl.
Qed.

Lemma date_leb_trans (a b c : date) :
  date_leb a b = true -> date_leb b c = true -> date_leb a c = true.
Proof. rewrite !date_leb_spec. lia. Qed.

Lemma date_leb_total (a b : date) :
  date_leb a b = false -> date_leb b a = true.
Proof.
  intros H. apply not_true_iff_false in H.
  rewrite date_leb_spec in *. lia.
Qed.

Lemma date_leb_refl (a : date) : date_leb a a = true.
Proof. rewrite date_leb_spec. lia. Qed.

Lemma in_set_add (d y : date) (s : list date) :
  In y (set_add d s) <-> y = d \/ In y s.
Proof.
  induction s as [| x s IH]; cbn [set_add].
  - cbn. intuition.
  - destruct (date_eqb d x) eqn:E.
    + apply date_eqb_eq in E. subst x. cbn. intuition.
    + cbn [In]. rewrite IH. intuition.
Qed.

Lemma in_set_of (y : date) (l : list date) : In y (set_of l) <-> In y l.
Proof.
  unfold set_of.
  assert (H : forall acc,
             In y (fold_left (fun s d => set_add d s) l acc)
             <-> In y l \/ In y acc).
  { induction l as [| d l IH]; intros acc; cbn [fold_left].
    - cbn. intuition.
    - rewrite IH, in_set_add. cbn [In]. intuition. }
  rewrite H. cbn. intuition.
Qed.

Lemma in_insert (d y : date) (l : list date) :
  In y (insert d l) <-> y = d \/ In y l.
Proof.
  induction l as [| x l IH]; cbn [insert].
  - cbn. intuition.
  - destruct (date_leb d x); cbn [In]; [|rewrite IH]; intuition.
Qed.

Lemma in_sorted (y : date) (l : list date) : In y (sorted l) <-> In y l.
Proof.
  induction l as [| d l IH]; cbn [sorted fold_right]; [tauto|].
  fold (sorted l). rewrite in_insert, IH. cbn. intuition.
Qed.

(** The first date of [sorted l] is the earliest of [l]. *)
Lemma sorted_head_min (l : list date) (m : date) (rest : list date) :
  sorted l = m :: rest ->
  In m l /\ forall x, In x l -> date_leb m x = true.
Proof.
  intros Hs. split.
  { apply in_sorted. rewrite Hs. now left. }
  revert m rest Hs.
  induction l as [| d l IH]; intros m rest Hs x Hx; [destruct Hx|].
  cbn [sorted fold_right] in Hs. fold (sorted l) in Hs.
  destruct (sorted l) as [| y sl] eqn:E; cbn [insert] in Hs.
  - injection Hs as <- <-. destruct Hx as [<- | Hx]; [apply date_leb_refl|].
    apply in_sorted in Hx. rewrite E in Hx. destruct Hx.
  - destruct (date_leb d y) eqn:L; injection Hs as <- <-.
    + destruct Hx as [<- | Hx]; [apply date_leb_refl|].
      apply date_leb_trans with (1 := L). now apply (IH y sl).
    + destruct Hx as [<- | Hx]; [now apply date_leb_total|].
      now apply (IH y sl).
Qed.


(** ** [round] *)

Lemma floor_bounds (q : Q) :
  (inject_Z (Qfloor q) <= q /\ q < inject_Z (Qfloor q) + 1)%Q.
Proof.
  split; [apply Qfloor_le|].
  pose proof (Qlt_floor q) as H. rewrite inject_Z_plus in H. exact H.
Qed.


(** Half-way between [k] and [k + 1], [round] gives the even one. *)
Lemma round_half_even_tie (q : Q) (k : Z) :
  (q == inject_Z k + (1 # 2))%Q ->
  round_half_even q = if Z.even k then k else (k + 1)%Z.
Proof.
  intros Hq. unfold round_half_even. destruct (floor_bounds q) as [Hlo Hhi].
  assert (Hn : Qfloor q = k).
  { assert (H1 : (inject_Z (Qfloor q) < inject_Z (k + 1))%Q)
      by (rewrite inject_Z_plus; change (inject_Z 1) with 1%Q; lra).
    assert (H2 : (inject_Z k < inject_Z (Qfloor q + 1))%Q)
      by (rewrite inject_Z_plus; change (inject_Z 1) with 1%Q; lra).
    rewrite <- Zlt_Qlt in H1, H2. lia. }
  rewrite Hn.
  assert (E : (q - inject_Z k ?= 1 # 2)%Q = Eq) by (apply Qeq_alt; lra).
  now rewrite E.
Qed.

Lemma atm_strike_value (spot : float) (q : Q) (st : State) :
  value (spot / 50)%float = Fin q ->
  atm_strike spot st = (inr (round_half_even q * 50)%Z, st).
Proof.
  intros H. unfold atm_strike, bind, py_round. now rewrite H.
Qed.

Lemma atm_strike_run (spot : float) (st : State) :
  atm_strike spot st
  = match value (spot / 50)%float with
    | NaN => (inl ValueError, st)
    | MInf | PInf => (inl OverflowError, st)
    | Fin q => (inr (round_half_even q * 50)%Z, st)
    end.
Proof.
  unfold atm_strike, bind, py_round.
  destruct (value (spot / 50)%float); reflexivity.
Qed.


Lemma nearest_from_spec (count : nat) : forall a n : Z,
  Orders.nearest_from a count = true ->
  (a <= n < a + Z.of_nat count)%Z -> strike_is_nearest n = true.
Proof.
  induction count as [| count IH]; intros a n H Hn; [lia|].
  cbn [Orders.nearest_from] in H. apply andb_true_iff in H.
  destruct H as [Ha Hrest].
  destruct (Z.eq_dec n a) as [-> | Hne]; [exact Ha|].
  apply (IH (a + 1)%Z n Hrest). lia.
Qed.

Lemma whole_prices_checked :
  Orders.nearest_from 0 (Z.to_nat 30001) = true.
Proof. vm_compute. reflexivity. Qed.

(** On the whole prices up to 30000 the strike is the nearest multiple of
    50. *)
Lemma atm_strike_whole_price (n : Z) (st : State) :
  (0 <= n <= 30000)%Z ->
  (value (whole_price n) == of_Z n)%E /\
  atm_strike (whole_price n) st = (inr (nearest_strike n), st).
Proof.
  intros Hn.
  pose proof (nearest_from_spec _ 0%Z n whole_prices_checked) as H.
  specialize (H ltac:(lia)).
  unfold strike_is_nearest in H. apply andb_true_iff in H.
  destruct H as [Hv Hs]. split.
  - unfold float_eq_int in Hv.
    destruct (value (whole_price n)); try discriminate.
    now apply Qeq_bool_iff.
  - rewrite atm_strike_run in *.
    destruct (value (whole_price n / 50)%float); try discriminate.
    cbn [fst] in Hs. apply Z.eqb_eq in Hs. now rewrite Hs.
Qed.

(** C10: the strike is rounded half to even: when the quotient of the spot
    price by 50 is half-way between [k] and [k + 1], the strike is 50 times
    the even one of the two, as it is for every whole spot price 50 k + 25
    up to 30000; so 10525 (quotient 210.5) resolves to 10500, the lower
    multiple, and 10575 (quotient 211.5) to 10600. *)
Theorem strike_rounds_half_to_even (spot : float) (q : Q) (k : Z) (st : State) :
  value (spot / 50)%float = Fin q ->
  (q == inject_Z k + (1 # 2))%Q ->
  atm_strike spot st
    = (inr ((if Z.even k then k else k + 1) * 50)%Z, st) /\
  (forall j, (0 <= 50 * j + 25 <= 30000)%Z ->
     atm_strike (whole_price (50 * j + 25)) st
     = (inr ((if Z.even j then j else j + 1) * 50)%Z, st)) /\
  atm_strike 10525 st = (inr 10500%Z, st) /\
  atm_strike 10575 st = (inr 10600%Z, st).
Proof.
  intros Hv Hq. split; [|split; [|split]].
  - rewrite (atm_strike_value spot q st Hv).
    now rewrite (round_half_even_tie q k Hq).
  - intros j Hj.
    destruct (atm_strike_whole_price (50 * j + 25) st Hj) as [_ ->].
    unfold nearest_strike.
    replace ((50 * j + 25) mod 50)%Z with 25%Z
      by (apply Z.mod_unique with j; lia).
    replace ((50 * j + 25) / 50)%Z with j
      by (apply Z.div_unique with 25%Z; lia).
    reflexivity.
  - rewrite atm_strike_run. reflexivity.
  - rewrite atm_strike_run. reflexivity.
Qed.

(** Witness of C10: the spot price 10525, whose quotient by 50 is 210.5. *)
Lemma strike_rounds_half_to_even_witness :
  atm_strike 10525 initial = (inr 10500%Z, initial).
Proof.
  refine (proj1 (strike_rounds_half_to_even 10525
                   (7406310324699136 # 35184372088832) 210 initial _ _)).
  - vm_compute. reflexivity.
  - vm_compute. reflexivity.
Defined.


(** ** Instrument resolution *)


Lemma option_type_sides :
  option_type "CALL" = "CE"%string /\ option_type "PUT" = "PE"%string.
Proof. split; reflexivity. Qed.

(** The expiry [get_current_expiry] picks is the earliest one listed for
    NIFTY. *)
Lemma nifty_expiries_head (universe : list Instrument) (e : date)
  (rest : list date) :
  nifty_expiries universe = e :: rest ->
  (exists ins, In ins universe /\ name ins = "NIFTY"%string /\
               expiry ins = e) /\
  (forall ins, In ins universe -> name ins = "NIFTY"%string ->
               date_leb e (expiry ins) = true).
Proof.
  unfold nifty_expiries. intros H.
  apply sorted_head_min in H. destruct H as [Hin Hmin]. split.
  - apply in_set_of, in_map_iff in Hin. destruct Hin as (ins & He & Hf).
    apply filter_In in Hf. destruct Hf as [Hf Hn].
    apply String.eqb_eq in Hn. eauto.
  - intros ins Hi Hn. apply Hmin, in_set_of, in_map_iff.
    exists ins. split; [reflexivity|]. apply filter_In.
    split; [exact Hi|]. now apply String.eqb_eq.
Qed.

(** Runs of the monad. *)
Lemma bind_ok {A B : Type} (m : M A) (k : A -> M B) (st st' : State) (a : A) :
  m st = (inr a, st') -> bind m k st = k a st'.
Proof. unfold bind. now intros ->. Qed.

Lemma bind_raise {A B : Type} (m : M A) (k : A -> M B) (st st' : State)
  (e : exn) :
  m st = (inl e, st') -> bind m k st = (inl e, st').
Proof. unfold bind. now intros ->. Qed.

Lemma request_ok {A : Type} (c : Call) (answer : list Call -> option A)
  (st : State) (a : A) :
  answer (calls st) = Some a ->
  request c answer st
  = (inr a, mk_state (_INSTRUMENTS st) (calls st ++ [c]) (log st)).
Proof. unfold request. now intros ->. Qed.

Lemma request_raise {A : Type} (c : Call) (answer : list Call -> option A)
  (st : State) :
  answer (calls st) = None ->
  request c answer st
  = (inl (BrokerError c),
     mk_state (_INSTRUMENTS st) (calls st ++ [c]) (log st)).
Proof. unfold request. now intros ->. Qed.

(** [load_instruments] with the list cached, and with an empty cache. *)
Lemma load_instruments_cached (kite : Kite) (st : State)
  (universe : list Instrument) :
  _INSTRUMENTS st = Some universe ->
  load_instruments kite st = (inr universe, st).
Proof.
  intros H. unfold load_instruments.
  rewrite (bind_ok _ _ st st (Some universe)); [reflexivity|].
  unfold get_cache. now rewrite H.
Qed.


(** After [load_instruments] the list is cached. *)
Lemma load_instruments_caches (kite : Kite) (st st' : State)
  (universe : list Instrument) :
  load_instruments kite st = (inr universe, st') ->
  _INSTRUMENTS st' = Some universe.
Proof.
  unfold load_instruments, bind, get_cache, request, set_cache, ret.
  destruct (_INSTRUMENTS st) as [cached |] eqn:E.
  - intros H. injection H as <- <-. exact E.
  - destruct (kite_instruments kite (calls st) "NFO");
      intros H; [|discriminate]. now injection H as <- <-.
Qed.





(** Runs of the resolution: a contract found, none at the strike, and a
    universe without NIFTY, where taking the first expiry raises. *)
Example resolve_found :
  fst (get_atm_option_symbol (example_kite 10523) "PUT" initial)
  = inr "NIFTY2411810500PE"%string.
Proof. vm_compute. reflexivity. Qed.

Example resolve_not_found :
  fst (get_atm_option_symbol (example_kite 10623) "CALL" initial)
  = inl OptionSymbolNotFound.
Proof. vm_compute. reflexivity. Qed.

Example resolve_without_nifty :
  fst (get_atm_option_symbol
         (mk_kite (fun _ _ => Some 10523%float) (fun _ _ => Some [])
                  (fun _ _ => None) (fun _ => None))
         "CALL" initial)
  = inl IndexError.
Proof. vm_compute. reflexivity. Qed.


(** ** Orders *)

Lemma exit_position_paper (config : Config) (kite : Kite)
  (sym : string) (qty : Z) (st : State) :
  AUTO_TRADE config = false ->
  exit_position config kite sym qty st
  = (inr tt,
     mk_state (_INSTRUMENTS st) (calls st)
       (log st ++ [("PAPER EXIT → " ++ sym)%string])).
Proof. intros H. unfold exit_position. rewrite H. reflexivity. Qed.





Lemma in_open_positions (positions : list Position) (p : Position) :
  In p (open_positions positions) <-> In p positions /\ quantity p <> 0%Z.
Proof.
  unfold open_positions. rewrite filter_In, negb_true_iff, Z.eqb_neq.
  reflexivity.
Qed.




(** ** Paper mode *)

(** [load_instruments] sends at most the instrument list request. *)
Lemma load_instruments_calls (kite : Kite) (st : State) :
  let st' := snd (load_instruments kite st) in
  calls st' = calls st \/
  calls st' = calls st ++ [CallInstruments "NFO"].
Proof.
  unfold load_instruments, bind, get_cache, request, set_cache, ret.
  destruct (_INSTRUMENTS st); [left; reflexivity|].
  destruct (kite_instruments kite (calls st) "NFO"); right; reflexivity.
Qed.

Lemma get_current_expiry_run (kite : Kite) (st : State) :
  get_current_expiry kite st
  = match load_instruments kite st with
    | (inl e, st') => (inl e, st')
    | (inr universe, st') =>
        match nifty_expiries universe with
        | [] => (inl IndexError, st')
        | e :: _ => (inr e, st')
        end
    end.
Proof.
  unfold get_current_expiry, bind.
  destruct (load_instruments kite st) as [[err | universe] st'];
    [reflexivity|].
  destruct (nifty_expiries universe); reflexivity.
Qed.

(** The resolution sends the spot price request first, then at most the
    instrument list request; it places no order. *)
Lemma get_atm_option_symbol_calls (kite : Kite) (side : string) (st : State) :
  let st' := snd (get_atm_option_symbol kite side st) in
  calls st' = calls st ++ [CallLtp "NSE:NIFTY 50"] \/
  calls st'
  = calls st ++ [CallLtp "NSE:NIFTY 50"; CallInstruments "NFO"].
Proof.
  cbv zeta. unfold get_atm_option_symbol.
  destruct (kite_ltp kite (calls st) "NSE:NIFTY 50") as [spot |] eqn:Hltp.
  2:{ erewrite bind_raise by (apply request_raise; exact Hltp).
      left. reflexivity. }
  erewrite bind_ok by (apply request_ok; exact Hltp).
  set (st1 := mk_state _ _ _).
  assert (H1 : calls st1 = calls st ++ [CallLtp "NSE:NIFTY 50"])
    by reflexivity.
  pose proof (atm_strike_run spot st1) as Hstrike.
  destruct (value (spot / 50)%float) as [| | q |];
    try (erewrite bind_raise by exact Hstrike; left; exact H1).
  erewrite bind_ok by exact Hstrike.
  pose proof (load_instruments_calls kite st1) as Hload.
  cbv zeta in Hload.
  assert (H2 : calls (snd (load_instruments kite st1))
               = calls st ++ [CallLtp "NSE:NIFTY 50"] \/
               calls (snd (load_instruments kite st1))
               = calls st ++ [CallLtp "NSE:NIFTY 50"; CallInstruments "NFO"]).
  { destruct Hload as [-> | ->]; [left; exact H1|].
    right. rewrite H1, <- app_assoc. reflexivity. }
  pose proof (get_current_expiry_run kite st1) as Hexp.
  destruct (load_instruments kite st1) as [[err | universe] st2] eqn:L;
    cbn [snd] in H2.
  { erewrite bind_raise by exact Hexp. exact H2. }
  destruct (nifty_expiries universe) as [| e rest].
  { erewrite bind_raise by exact Hexp. exact H2. }
  erewrite bind_ok by exact Hexp.
  erewrite bind_ok
    by (apply load_instruments_cached;
        exact (load_instruments_caches _ _ _ _ L)).
  destruct (find _ universe); exact H2.
Qed.

(** C5, as worded, fails: in paper mode [place_entry] asks the broker for
    the spot price and the instrument list, and fails when the broker is
    down. *)
Lemma paper_entry_calls_broker :
  place_entry paper_config (example_kite 10523) "CALL" initial
  = (inr (mk_entry "paper" "NIFTY2411810500CE" None),
     mk_state (Some example_universe)
       [CallLtp "NSE:NIFTY 50"; CallInstruments "NFO"]
       ["PAPER ENTRY → NIFTY2411810500CE"%string]) /\
  place_entry paper_config kite_down "CALL" initial
  = (inl (BrokerError (CallLtp "NSE:NIFTY 50")),
     mk_state None [CallLtp "NSE:NIFTY 50"] []) /\
  ~ paper_mode_bypasses_broker.
Proof.
  split; [vm_compute; reflexivity|]. split; [vm_compute; reflexivity|].
  intros H.
  destruct (H paper_config kite_down initial eq_refl) as [Hentry _].
  destruct (Hentry "CALL"%string) as [Hcalls _].
  vm_compute in Hcalls. discriminate Hcalls.
Qed.

(** C5, amended: in paper mode no order is placed.  [exit_position] sends
    nothing to the broker and cannot fail: it logs one line.
    [place_entry] is the instrument resolution followed by one log line:
    it asks the broker for the spot price and, with an empty cache, for the
    instrument list, places no order, and fails exactly when the
    resolution fails, with the same exception. *)
Theorem paper_mode_places_no_order (config : Config) (kite : Kite)
  (st : State) :
  AUTO_TRADE config = false ->
  (forall sym qty,
     exit_position config kite sym qty st
     = (inr tt,
        mk_state (_INSTRUMENTS st) (calls st)
          (log st ++ [("PAPER EXIT → " ++ sym)%string]))) /\
  (forall side,
     place_entry config kite side st
     = match get_atm_option_symbol kite side st with
       | (inl e, st') => (inl e, st')
       | (inr sym, st') =>
           (inr (mk_entry "paper" sym None),
            mk_state (_INSTRUMENTS st') (calls st')
              (log st' ++ [("PAPER ENTRY → " ++ sym)%string]))
       end) /\
  (forall side,
     let st' := snd (place_entry config kite side st) in
     calls st' = calls st ++ [CallLtp "NSE:NIFTY 50"] \/
     calls st'
     = calls st ++ [CallLtp "NSE:NIFTY 50"; CallInstruments "NFO"]) /\
  (forall side,
     kite_ltp kite (calls st) "NSE:NIFTY 50" = None ->
     fst (place_entry config kite side st)
     = inl (BrokerError (CallLtp "NSE:NIFTY 50"))).
Proof.
  intros Hpaper.
  assert (Hrun : forall side,
    place_entry config kite side st
    = match get_atm_option_symbol kite side st with
      | (inl e, st') => (inl e, st')
      | (inr sym, st') =>
          (inr (mk_entry "paper" sym None),
           mk_state (_INSTRUMENTS st') (calls st')
             (log st' ++ [("PAPER ENTRY → " ++ sym)%string]))
      end).
  { intros side. unfold place_entry, bind at 1. rewrite Hpaper. cbn [negb].
    destruct (get_atm_option_symbol kite side st) as [[e | sym] st'];
      reflexivity. }
  split; [intros sym qty; now apply exit_position_paper|].
  split; [exact Hrun|]. split.
  - intros side. cbv zeta. rewrite Hrun.
    pose proof (get_atm_option_symbol_calls kite side st) as H.
    cbv zeta in H.
    destruct (get_atm_option_symbol kite side st) as [[e | sym] st'];
      exact H.
  - intros side Hltp. rewrite Hrun. unfold get_atm_option_symbol.
    erewrite bind_raise by (apply request_raise; exact Hltp). reflexivity.
Qed.

(** Witness of the amended C5: a paper entry with the broker down. *)
Lemma paper_mode_places_no_order_witness :
  fst (place_entry paper_config kite_down "CALL" initial)
  = inl (BrokerError (CallLtp "NSE:NIFTY 50")).
Proof.
  refine (proj2 (proj2 (proj2
    (paper_mode_places_no_order paper_config kite_down initial _)))
    "CALL"%string _); reflexivity.
Defined.

End KiteFacts.

(* ================================================================== *)
(** * app.py: cleaning, the table and the dashboard *)
(* ================================================================== *)

Module TableFacts.

Import Binary64 Binary64Facts App Rules Stocks AppFacts PipelineFacts.

(** ** The band gate *)

(** X1: an entry needs a narrow band: on every row whose BB60 is above 35
    or undefined, CALL_ENTRY and PUT_ENTRY are both false, whatever the
    other indicators. *)
Theorem wide_band_blocks_entries (df : list IndicatorRow) :
  Forall (fun s : SignalRow =>
            (of_Z 35 < BB60 s)%E \/ undefined (BB60 s) ->
            CALL_ENTRY s = false /\ PUT_ENTRY s = false)
         (apply_strategy df).
Proof.
  apply Forall_apply_strategy. intros r.
  cbn [strategy_row CALL_ENTRY PUT_ENTRY row]. intros H.
  assert (Hgate : (BB60 r <=? 35)%float = false).
  { apply not_true_is_false. intros Hle.
    apply (leb_const_r (BB60 r) 35 35) in Hle; [|vm_compute; reflexivity].
    destruct H as [H | H].
    - exact (elt_not_ele _ _ H Hle).
    - unfold undefined in H. rewrite H in Hle. exact Hle. }
  unfold call_entry_row, put_entry_row. rewrite Hgate. split; reflexivity.
Qed.

Lemma wide_band_blocks_entries_witness :
  CALL_ENTRY (strategy_row wide_band_row) = false /\
  PUT_ENTRY (strategy_row wide_band_row) = false.
Proof.
  refine (Forall_inv (wide_band_blocks_entries [wide_band_row]) _).
  left. vm_compute. reflexivity.
Defined.


(** ** Cleaning *)

Lemma is_nan_undefined (x : float) : is_nan x = true <-> undefined x.
Proof.
  unfold is_nan, undefined. rewrite negb_true_iff, eqb_spec. unfold SFeqb.
  rewrite compare_value.
  destruct (value x) as [| | q |]; cbn; try (split; [discriminate | easy]);
    try tauto.
  assert (E : (q ?= q)%Q = Eq) by (apply Qeq_alt; reflexivity).
  rewrite E. split; discriminate.
Qed.

Lemma is_nan_defined (x : float) : is_nan x = false <-> defined x.
Proof.
  unfold defined. rewrite <- not_true_iff_false, is_nan_undefined. reflexivity.
Qed.

Lemma isna_clean (b : Bar) : isna b = false <-> clean b.
Proof.
  unfold isna, clean. rewrite !orb_false_iff, !is_nan_defined. tauto.
Qed.

Lemma in_dropna (df : list Bar) (b : Bar) :
  In b (dropna df) <-> In b df /\ clean b.
Proof.
  unfold dropna. now rewrite filter_In, negb_true_iff, isna_clean.
Qed.

Lemma dropna_clean (df : list Bar) : Forall clean df -> dropna df = df.
Proof.
  unfold dropna. induction 1 as [| b df Hb _ IH]; cbn [filter]; [reflexivity|].
  apply isna_clean in Hb. rewrite Hb. cbn [negb]. now rewrite IH.
Qed.

Lemma dropna_cleaned (df : list Bar) : cleaned df (dropna df).
Proof.
  unfold dropna. induction df as [| b df IH]; cbn [filter]; [constructor|].
  destruct (isna b) eqn:E; cbn [negb].
  - apply cleaned_drop; [|exact IH].
    intros H. apply isna_clean in H. congruence.
  - apply cleaned_keep; [now apply isna_clean | exact IH].
Qed.

Lemma cleaned_unique (df raw : list Bar) :
  cleaned df raw -> raw = dropna df.
Proof.
  unfold dropna.
  induction 1 as [| b df raw Hb _ IH | b df raw Hb _ IH]; cbn [filter].
  - reflexivity.
  - apply isna_clean in Hb. rewrite Hb. cbn [negb]. now f_equal.
  - destruct (isna b) eqn:E; cbn [negb]; [exact IH|].
    apply isna_clean in E. contradiction.
Qed.

Section Cleaning.

Variable yf_download : string -> list Bar.

Abbreviation fetch_data := (fetch_data yf_download).
Abbreviation skipped := (skipped yf_download).

Lemma fetch_data_run (symbol : string) :
  fetch_data symbol
  = match yf_download symbol with
    | [] => None
    | _ => Some (dropna (yf_download symbol))
    end.
Proof. unfold App.fetch_data. now destruct (yf_download symbol). Qed.

(** X2: [fetch_data] answers [None] exactly on an empty download; the
    series it returns is the download without the bars that miss a number
    in a price or volume cell, the other bars in their order (and no other
    series is), so it is the download itself when no cell is missing; the
    160 bars of [MIN_BARS] are counted after this cleaning. *)
Theorem fetch_data_cleans (symbol : string) :
  (fetch_data symbol = None <-> yf_download symbol = []) /\
  (forall raw, fetch_data symbol = Some raw ->
     cleaned (yf_download symbol) raw /\
     (forall raw', cleaned (yf_download symbol) raw' -> raw' = raw) /\
     Forall clean raw /\
     (forall b, In b raw <-> In b (yf_download symbol) /\ clean b) /\
     (List.length raw <= List.length (yf_download symbol))%nat /\
     (Forall clean (yf_download symbol) -> raw = yf_download symbol)) /\
  (skipped symbol <->
   (List.length (dropna (yf_download symbol)) < MIN_BARS)%nat).
Proof.
  assert (Hsome : forall raw, fetch_data symbol = Some raw ->
            raw = dropna (yf_download symbol)).
  { intros raw. rewrite fetch_data_run.
    destruct (yf_download symbol); [discriminate|]. congruence. }
  split; [|split].
  - rewrite fetch_data_run. destruct (yf_download symbol);
      split; try discriminate; reflexivity.
  - intros raw H. apply Hsome in H. subst raw.
    split; [apply dropna_cleaned|].
    split; [apply cleaned_unique|].
    split; [apply Forall_forall; intros b Hb; now apply in_dropna in Hb|].
    split; [intros b; apply in_dropna|].
    split; [apply filter_length_le | apply dropna_clean].
  - unfold App.skipped. split.
    + intros [H | (raw & H & Hlen)].
      * rewrite fetch_data_run in H.
        destruct (yf_download symbol); [|discriminate].
        cbn. unfold MIN_BARS. lia.
      * apply Hsome in H. now subst raw.
    + intros H. destruct (fetch_data symbol) as [raw |] eqn:E;
        [|left; reflexivity].
      right. exists raw. split; [reflexivity|].
      now rewrite (Hsome raw eq_refl).
Qed.

End Cleaning.

(** Witness of X2: a download of 200 bars whose first 50 have no close
    leaves 150 bars, and the symbol is passed over. *)
Lemma fetch_data_cleans_witness :
  App.skipped gappy_download "TCS.NS".
Proof.
  apply (proj2 (proj2 (proj2 (fetch_data_cleans gappy_download "TCS.NS")))).
  vm_compute. lia.
Defined.


(** ** The table *)

Lemma after_ten_hour (s : SignalRow) :
  after_ten s = true <-> (10 <= hour (ts_time (Datetime s)))%nat.
Proof.
  unfold after_ten, time_geb. cbn [hour minute second microsecond].
  destruct (Nat.compare_spec (hour (ts_time (Datetime s))) 10);
    [|split; [discriminate | lia] | split; [lia | reflexivity]].
  destruct (Nat.compare_spec (minute (ts_time (Datetime s))) 0);
    [|lia | split; [lia | reflexivity]].
  destruct (Nat.compare_spec (second (ts_time (Datetime s))) 0);
    [|lia | split; [lia | reflexivity]].
  cbn. split; [lia | reflexivity].
Qed.

Lemma entry_rows_exclusive (r : Indicators) :
  call_entry_row r = true -> put_entry_row r = true -> False.
Proof.
  intros Hc Hp.
  apply call_entry_row_rule in Hc. apply put_entry_row_rule in Hp.
  destruct Hc as (_ & [Hc _] & _), Hp as (_ & [_ Hp] & _).
  pose proof (ele_trans _ _ _ Hc Hp) as H. cbn in H. now apply H.
Qed.

Section Table.

Variable yf_download : string -> list Bar.
Variable ta_indicators : list Bar -> nat -> Indicators.

Abbreviation fetch_data := (fetch_data yf_download).
Abbreviation skipped := (skipped yf_download).
Abbreviation add_indicators := (add_indicators ta_indicators).
Abbreviation pipeline_step := (pipeline_step yf_download ta_indicators).
Abbreviation pipeline_frames := (pipeline_frames yf_download ta_indicators).
Abbreviation aggregated := (aggregated yf_download ta_indicators).
Abbreviation pipeline := (pipeline yf_download ta_indicators).
Abbreviation frame_of := (frame_of yf_download ta_indicators).

Lemma pipeline_step_frame (stock : string) :
  List.concat (pipeline_step [] stock) = frame_of stock /\
  (pipeline_step [] stock = [] <-> skipped stock).
Proof.
  unfold App.pipeline_step, Stocks.frame_of, App.skipped.
  destruct (fetch_data stock) as [raw |]; [|cbn; tauto].
  destruct (Nat.leb MIN_BARS (List.length raw)) eqn:L.
  - split; [cbn; apply app_nil_r|]. apply Nat.leb_le in L.
    split; [discriminate|]. intros [H | (raw' & H & Hlen)]; [discriminate|].
    injection H as <-. lia.
  - split; [reflexivity|]. apply Nat.leb_gt in L.
    split; [|reflexivity]. intros _. right. eauto.
Qed.

Lemma aggregated_flat_map (stocks : list string) :
  aggregated stocks = flat_map frame_of stocks.
Proof.
  unfold App.aggregated.
  induction stocks as [| stock stocks IH]; [reflexivity|].
  rewrite pipeline_frames_cons, concat_app, IH.
  cbn [flat_map]. now rewrite (proj1 (pipeline_step_frame stock)).
Qed.

Lemma frame_of_stock (stock : string) :
  Forall (fun r => Stock r = stock) (frame_of stock).
Proof.
  unfold Stocks.frame_of. destruct (fetch_data stock) as [raw |]; [|constructor].
  destruct (Nat.leb MIN_BARS (List.length raw)); [|constructor].
  apply set_stock_bars.
Qed.

Lemma rows_of_frame (stock other : string) :
  rows_of other (frame_of stock)
  = if String.eqb stock other then frame_of stock else [].
Proof.
  unfold rows_of. pose proof (frame_of_stock stock) as H.
  induction H as [| r l Hr _ IH]; cbn [filter].
  - now destruct (String.eqb stock other).
  - rewrite Hr, IH. now destruct (String.eqb stock other).
Qed.

Lemma rows_of_aggregated (stocks : list string) (stock : string) :
  List.length (rows_of stock (aggregated stocks))
  = (count_occ string_dec stocks stock * List.length (frame_of stock))%nat.
Proof.
  rewrite aggregated_flat_map.
  induction stocks as [| s stocks IH]; [reflexivity|].
  cbn [flat_map count_occ]. unfold rows_of in *.
  rewrite filter_app, length_app, IH.
  fold (rows_of stock (frame_of s)). rewrite rows_of_frame.
  destruct (string_dec s stock) as [-> | Hne].
  - rewrite String.eqb_refl. lia.
  - apply String.eqb_neq in Hne. rewrite Hne. cbn. lia.
Qed.

Lemma frame_of_bars (stock : string) (raw : list Bar) :
  fetch_data stock = Some raw -> (MIN_BARS <= List.length raw)%nat ->
  map bar (frame_of stock) = raw.
Proof.
  intros Hf Hl. unfold Stocks.frame_of. rewrite Hf.
  apply Nat.leb_le in Hl. rewrite Hl. apply set_stock_bars.
Qed.


(** X4: the table is the concatenation, in the order of the list of
    symbols, of the frames of the symbols that are not passed over, each
    frame holding the cleaned bars of its symbol in order; so the rows that
    carry a symbol number its bars times the occurrences of the symbol in
    the list. *)
Theorem table_is_ordered_concatenation (stocks : list string) :
  aggregated stocks = flat_map frame_of stocks /\
  (forall l1 l2, aggregated (l1 ++ l2) = aggregated l1 ++ aggregated l2) /\
  (forall stock,
     (skipped stock -> frame_of stock = []) /\
     (forall raw, fetch_data stock = Some raw ->
        (MIN_BARS <= List.length raw)%nat ->
        map bar (frame_of stock) = raw /\
        Forall (fun r => Stock r = stock) (frame_of stock)) /\
     List.length (rows_of stock (aggregated stocks))
     = (count_occ string_dec stocks stock * List.length (frame_of stock))%nat).
Proof.
  split; [apply aggregated_flat_map|]. split.
  - intros l1 l2. rewrite !aggregated_flat_map. apply flat_map_app.
  - intros stock. split; [|split].
    + intros H. rewrite <- (proj1 (pipeline_step_frame stock)).
      apply pipeline_step_frame in H. now rewrite H.
    + intros raw Hf Hl. unfold Stocks.frame_of. rewrite Hf.
      apply Nat.leb_le in Hl. rewrite Hl. apply set_stock_bars.
    + apply rows_of_aggregated.
Qed.

(** X5: when the dashboard is reached, the CALL tab shows exactly the rows
    at or after 10:00 with CALL_ENTRY true and CALL_EXIT false: rows of
    the table that meet the call entry rule and not the call exit rule;
    likewise the PUT tab; and no row is shown in both tabs. *)
Theorem tabs_show_open_signals (stocks : list string) (df : list SignalRow) :
  pipeline stocks = Dashboard df ->
  (forall s : SignalRow, In s (call_df df) <->
     (exists r, In r (aggregated stocks) /\ s = strategy_row r) /\
     (10 <= hour (ts_time (Datetime s)))%nat /\
     call_entry_rule s /\ ~ call_exit_rule s) /\
  (forall s : SignalRow, In s (put_df df) <->
     (exists r, In r (aggregated stocks) /\ s = strategy_row r) /\
     (10 <= hour (ts_time (Datetime s)))%nat /\
     put_entry_rule s /\ ~ put_exit_rule s) /\
  (forall s, In s (call_df df) -> ~ In s (put_df df)).
Proof.
  intros Hdf.
  assert (Hin : forall s, In s df <->
            (exists r, In r (aggregated stocks) /\ s = strategy_row r) /\
            (10 <= hour (ts_time (Datetime s)))%nat).
  { intros s. unfold App.pipeline, App.aggregated in *.
    destruct (App.pipeline_frames yf_download ta_indicators stocks);
      [discriminate|].
    injection Hdf as <-.
    rewrite filter_In, after_ten_hour, apply_strategy_rows, in_map_iff.
    split; intros [(r & H1 & H2) H3]; split; eauto. }
  unfold call_df, put_df. split; [|split].
  - intros s. rewrite filter_In, Hin, andb_true_iff, negb_true_iff.
    split.
    + intros ([(r & Hr & ->) Ht] & Hc & Hx).
      cbn [strategy_row CALL_ENTRY CALL_EXIT row] in *.
      split; [eauto|]. split; [exact Ht|].
      split; [now apply call_entry_row_rule|].
      rewrite <- call_exit_row_rule. congruence.
    + intros ((r & Hr & ->) & Ht & Hc & Hx).
      cbn [strategy_row CALL_ENTRY CALL_EXIT row] in *.
      split; [split; eauto|].
      split; [now apply call_entry_row_rule|].
      apply not_true_is_false. now rewrite call_exit_row_rule.
  - intros s. rewrite filter_In, Hin, andb_true_iff, negb_true_iff.
    split.
    + intros ([(r & Hr & ->) Ht] & Hc & Hx).
      cbn [strategy_row PUT_ENTRY PUT_EXIT row] in *.
      split; [eauto|]. split; [exact Ht|].
      split; [now apply put_entry_row_rule|].
      rewrite <- put_exit_row_rule. congruence.
    + intros ((r & Hr & ->) & Ht & Hc & Hx).
      cbn [strategy_row PUT_ENTRY PUT_EXIT row] in *.
      split; [split; eauto|].
      split; [now apply put_entry_row_rule|].
      apply not_true_is_false. now rewrite put_exit_row_rule.
  - intros s Hc Hp. apply filter_In in Hc, Hp.
    destruct Hc as [Hs Hc], Hp as [_ Hp].
    apply Hin in Hs. destruct Hs as [(r & _ & ->) _].
    cbn [strategy_row CALL_ENTRY PUT_ENTRY CALL_EXIT PUT_EXIT row] in *.
    apply andb_true_iff in Hc, Hp.
    exact (entry_rows_exclusive r (proj1 Hc) (proj1 Hp)).
Qed.

End Table.


(** Witness of X5: the 160 rows of TCS.NS meet the call entry rule with the
    close above MA8: each is in the CALL tab and not in the PUT tab. *)
Lemma tabs_show_open_signals_witness :
  ~ In (strategy_row
          (mk_row "TCS.NS" (example_bar 100) (signal_indicators [] 0)))
       (put_df
          (filter after_ten
             (apply_strategy
                (App.aggregated example_download signal_indicators
                   example_stocks)))).
Proof.
  refine (proj2 (proj2
    (tabs_show_open_signals example_download signal_indicators
       example_stocks _ _)) _ _).
  - vm_compute. reflexivity.
  - vm_compute. left. reflexivity.
Defined.

(** ** The list of symbols *)

Lemma existsb_eqb_in (x : string) (seen : list string) :
  existsb (String.eqb x) seen = true <-> In x seen.
Proof.
  rewrite existsb_exists. split.
  - intros (y & Hy & E). apply String.eqb_eq in E. now subst.
  - intros H. exists x. split; [exact H | apply String.eqb_refl].
Qed.

Lemma in_unique_from (l seen : list string) (x : string) :
  In x (unique_from seen l) <-> In x l /\ ~ In x seen.
Proof.
  revert seen. induction l as [| y l IH]; intros seen; cbn [unique_from].
  - cbn. tauto.
  - destruct (existsb (String.eqb y) seen) eqn:E.
    + apply existsb_eqb_in in E. rewrite IH. cbn [In].
      split; [tauto|]. intros [[-> | H] Hn]; tauto.
    + apply not_true_iff_false in E. rewrite existsb_eqb_in in E.
      cbn [In]. rewrite IH. cbn [In].
      destruct (string_dec y x) as [-> | Hne]; [tauto|].
      split; [tauto|]. intros [[H | H] Hn]; [tauto|]. right. tauto.
Qed.

Lemma unique_from_nodup (l seen : list string) : NoDup (unique_from seen l).
Proof.
  revert seen. induction l as [| y l IH]; intros seen; cbn [unique_from].
  - constructor.
  - destruct (existsb (String.eqb y) seen); [apply IH|].
    constructor; [|apply IH]. rewrite in_unique_from. cbn. tauto.
Qed.

Lemma unique_from_id (l seen : list string) :
  NoDup l -> (forall x, In x l -> ~ In x seen) -> unique_from seen l = l.
Proof.
  intros Hnd. revert seen.
  induction Hnd as [| y l Hy Hnd IH]; intros seen Hs; cbn [unique_from];
    [reflexivity|].
  destruct (existsb (String.eqb y) seen) eqn:E.
  - apply existsb_eqb_in in E. exfalso. apply (Hs y); [now left | exact E].
  - f_equal. apply IH. intros x Hx [<- | Hin]; [tauto|].
    apply (Hs x); [now right | exact Hin].
Qed.

Lemma in_dropna_cells (column : list (option string)) (s : string) :
  In s (dropna_cells column) <-> In (Some s) column.
Proof.
  unfold dropna_cells. rewrite in_flat_map. split.
  - intros ([c |] & Hc & Hs); [|destruct Hs].
    destruct Hs as [<- | []]. exact Hc.
  - intros H. exists (Some s). split; [exact H | now left].
Qed.

Lemma dropna_cells_some (l : list string) : dropna_cells (map Some l) = l.
Proof.
  unfold dropna_cells. induction l as [| x l IH]; [reflexivity|].
  cbn. now f_equal.
Qed.

(** X6: [load_stocks] lists each symbol of the Stock column once: the list
    has no repetition and holds exactly the symbols of the cells that are
    not missing; a column without missing cells or repetitions is returned
    as it is.  So a symbol that is not passed over has as many rows in the
    table as its cleaned series has bars, however often the file names
    it. *)
Theorem load_stocks_lists_each_symbol_once
  (yf_download : string -> list Bar)
  (ta_indicators : list Bar -> nat -> Indicators)
  (stock_column : list (option string)) :
  NoDup (load_stocks stock_column) /\
  (forall s, In s (load_stocks stock_column) <-> In (Some s) stock_column) /\
  (forall l, NoDup l -> load_stocks (map Some l) = l) /\
  (forall stock raw,
     In (Some stock) stock_column ->
     App.fetch_data yf_download stock = Some raw ->
     (MIN_BARS <= List.length raw)%nat ->
     List.length
       (rows_of stock
          (App.aggregated yf_download ta_indicators
             (load_stocks stock_column)))
     = List.length raw).
Proof.
  assert (Hin : forall s,
            In s (load_stocks stock_column) <-> In (Some s) stock_column).
  { intros s. unfold load_stocks, unique.
    rewrite in_unique_from, in_dropna_cells. cbn. tauto. }
  split; [apply unique_from_nodup|]. split; [exact Hin|]. split.
  - intros l Hl. unfold load_stocks, unique. rewrite dropna_cells_some.
    apply unique_from_id; [exact Hl | intros x _ []].
  - intros stock raw Hcol Hf Hl.
    rewrite rows_of_aggregated.
    rewrite <- (frame_of_bars yf_download ta_indicators stock raw Hf Hl).
    rewrite length_map.
    assert (Hc : count_occ string_dec (load_stocks stock_column) stock = 1%nat).
    { apply NoDup_count_occ'; [apply unique_from_nodup | now apply Hin]. }
    rewrite Hc. lia.
Qed.

(** Witness of X6: a column that names TCS.NS twice, with a missing
    cell. *)
Lemma load_stocks_lists_each_symbol_once_witness :
  List.length
    (rows_of "TCS.NS"
       (App.aggregated example_download example_indicators
          (load_stocks
             [Some "TCS.NS"; None; Some "INFY.NS"; Some "TCS.NS"]%string)))
  = List.length (repeat (example_bar 100) 160).
Proof.
  apply (proj2 (proj2 (proj2
    (load_stocks_lists_each_symbol_once example_download example_indicators
       [Some "TCS.NS"; None; Some "INFY.NS"; Some "TCS.NS"]%string)))).
  - left. reflexivity.
  - reflexivity.
  - rewrite repeat_length. unfold MIN_BARS. lia.
Defined.

End TableFacts.

(* ================================================================== *)
(** * kite_trader.py: the cache, entries and exits *)
(* ================================================================== *)

Module RouterFacts.

Import Binary64 Binary64Facts KiteTrader Orders KiteFacts.

(** ** The instrument cache *)

Lemma load_instruments_run (kite : Kite) (st : State) :
  load_instruments kite st
  = match _INSTRUMENTS st with
    | Some universe => (inr universe, st)
    | None =>
        match kite_instruments kite (calls st) "NFO" with
        | Some universe =>
            (inr universe,
             mk_state (Some universe)
               (calls st ++ [CallInstruments "NFO"]) (log st))
        | None =>
            (inl (BrokerError (CallInstruments "NFO")),
             mk_state None (calls st ++ [CallInstruments "NFO"]) (log st))
        end
    end.
Proof.
  unfold load_instruments, bind, get_cache, request, set_cache, ret.
  destruct (_INSTRUMENTS st) eqn:E; [reflexivity|].
  destruct (kite_instruments kite (calls st) "NFO"); cbn; now rewrite ?E.
Qed.

(** X7: the instrument list is fetched at most once.  With an empty cache
    [load_instruments] sends one request; when it answers, the list is
    cached, and from then on [load_instruments] returns that list without
    any request, whatever the broker would list now; when the request
    fails nothing is cached. *)
Theorem instruments_fetched_once (kite later : Kite) (st : State) :
  (forall universe, _INSTRUMENTS st = Some universe ->
     load_instruments kite st = (inr universe, st)) /\
  (_INSTRUMENTS st = None ->
     sends (load_instruments kite) st [CallInstruments "NFO"]) /\
  (forall universe st',
     load_instruments kite st = (inr universe, st') ->
     _INSTRUMENTS st' = Some universe /\
     load_instruments later st' = (inr universe, st')) /\
  (forall e st',
     load_instruments kite st = (inl e, st') ->
     e = BrokerError (CallInstruments "NFO") /\
     _INSTRUMENTS st' = None).
Proof.
  split; [|split; [|split]].
  - intros universe H. now rewrite load_instruments_run, H.
  - intros H. unfold sends. rewrite load_instruments_run, H.
    destruct (kite_instruments kite (calls st) "NFO"); reflexivity.
  - intros universe st' H. rewrite load_instruments_run in H.
    assert (Hc : _INSTRUMENTS st' = Some universe).
    { destruct (_INSTRUMENTS st) eqn:E; [now injection H as <- <-|].
      destruct (kite_instruments kite (calls st) "NFO");
        [now injection H as <- <-|discriminate]. }
    split; [exact Hc|]. now rewrite load_instruments_run, Hc.
  - intros e st' H. rewrite load_instruments_run in H.
    destruct (_INSTRUMENTS st); [discriminate|].
    destruct (kite_instruments kite (calls st) "NFO"); [discriminate|].
    now injection H as <- <-.
Qed.

(** ** A filled cache is kept *)

Lemma keeps_cache_ret {A : Type} (a : A) : keeps_cache (ret a).
Proof. intros st u H. exact H. Qed.

Lemma keeps_cache_raise {A : Type} (e : exn) : keeps_cache (@raise A e).
Proof. intros st u H. exact H. Qed.

Lemma keeps_cache_bind {A B : Type} (m : M A) (k : A -> M B) :
  keeps_cache m -> (forall a, keeps_cache (k a)) -> keeps_cache (bind m k).
Proof.
  intros Hm Hk st u H. unfold bind. specialize (Hm st u H).
  destruct (m st) as [[e | a] st']; cbn [snd] in *; [exact Hm|].
  now apply Hk.
Qed.

Lemma keeps_cache_request {A : Type} (c : Call)
  (answer : list Call -> option A) : keeps_cache (request c answer).
Proof.
  intros st u H. unfold request. destruct (answer (calls st)); exact H.
Qed.

Lemma keeps_cache_logging (msg : string) : keeps_cache (logging_info msg).
Proof. intros st u H. exact H. Qed.

Lemma keeps_cache_for_each {A : Type} (body : A -> M unit) (l : list A) :
  (forall a, keeps_cache (body a)) -> keeps_cache (for_each body l).
Proof.
  intros Hb. induction l as [| a l IH]; cbn [for_each].
  - apply keeps_cache_ret.
  - apply keeps_cache_bind; [apply Hb | intros _; exact IH].
Qed.

Lemma keeps_cache_load (kite : Kite) : keeps_cache (load_instruments kite).
Proof. intros st u H. rewrite load_instruments_run, H. exact H. Qed.

Lemma keeps_cache_expiry (kite : Kite) : keeps_cache (get_current_expiry kite).
Proof.
  unfold get_current_expiry.
  apply keeps_cache_bind; [apply keeps_cache_load|].
  intros u. destruct (nifty_expiries u);
    [apply keeps_cache_raise | apply keeps_cache_ret].
Qed.

Lemma keeps_cache_resolve (kite : Kite) (side : string) :
  keeps_cache (get_atm_option_symbol kite side).
Proof.
  unfold get_atm_option_symbol, get_nifty_spot.
  apply keeps_cache_bind; [apply keeps_cache_request|]. intros spot.
  apply keeps_cache_bind.
  { unfold atm_strike, py_round.
    apply keeps_cache_bind; [|intros n; apply keeps_cache_ret].
    destruct (value (spot / 50)%float);
      first [apply keeps_cache_raise | apply keeps_cache_ret]. }
  intros strike0.
  apply keeps_cache_bind; [apply keeps_cache_expiry|]. intros e.
  apply keeps_cache_bind; [apply keeps_cache_load|]. intros u.
  destruct (find _ u); [apply keeps_cache_ret | apply keeps_cache_raise].
Qed.

Lemma keeps_cache_exit (config : Config) (kite : Kite) (sym : string)
  (qty : Z) : keeps_cache (exit_position config kite sym qty).
Proof.
  unfold exit_position. destruct (negb (AUTO_TRADE config));
    [apply keeps_cache_logging|].
  apply keeps_cache_bind; [apply keeps_cache_request|].
  intros _. apply keeps_cache_logging.
Qed.

Lemma keeps_cache_positions (kite : Kite) :
  keeps_cache (get_open_positions kite).
Proof.
  unfold get_open_positions.
  apply keeps_cache_bind; [apply keeps_cache_request|].
  intros ps. apply keeps_cache_ret.
Qed.

(** X8: the cache is never refreshed: once [_INSTRUMENTS] holds a list,
    every function of the module leaves it as it is, whether it returns or
    raises. *)
Theorem filled_cache_is_kept (config : Config) (kite : Kite) :
  keeps_cache (load_instruments kite) /\
  keeps_cache (get_nifty_spot kite) /\
  keeps_cache (get_current_expiry kite) /\
  (forall side, keeps_cache (get_atm_option_symbol kite side)) /\
  (forall side, keeps_cache (place_entry config kite side)) /\
  (forall sym qty, keeps_cache (exit_position config kite sym qty)) /\
  keeps_cache (get_open_positions kite) /\
  (forall signal, keeps_cache (auto_exit config kite signal)) /\
  keeps_cache (has_open_position kite).
Proof.
  repeat split.
  - apply keeps_cache_load.
  - apply keeps_cache_request.
  - apply keeps_cache_expiry.
  - apply keeps_cache_resolve.
  - intros side. unfold place_entry.
    apply keeps_cache_bind; [apply keeps_cache_resolve|]. intros sym.
    destruct (negb (AUTO_TRADE config)).
    + apply keeps_cache_bind; [apply keeps_cache_logging|].
      intros _. apply keeps_cache_ret.
    + apply keeps_cache_bind; [apply keeps_cache_request|]. intros id.
      apply keeps_cache_bind; [apply keeps_cache_logging|].
      intros _. apply keeps_cache_ret.
  - apply keeps_cache_exit.
  - apply keeps_cache_positions.
  - intros signal. unfold auto_exit. destruct (negb signal);
      [apply keeps_cache_ret|].
    apply keeps_cache_bind; [apply keeps_cache_positions|]. intros ps.
    apply keeps_cache_for_each. intros p. apply keeps_cache_exit.
  - unfold has_open_position.
    apply keeps_cache_bind; [apply keeps_cache_positions|].
    intros ps. apply keeps_cache_ret.
Qed.


(** ** The current expiry *)

Lemma date_leb_antisym (a b : date) :
  date_leb a b = true -> date_leb b a = true -> a = b.
Proof.
  rewrite !date_leb_spec. destruct a as [ya ma da], b as [yb mb db]. cbn.
  intros H1 H2. f_equal; lia.
Qed.

Lemma in_nifty_expiries (universe : list Instrument) (d : date) :
  In d (nifty_expiries universe) <->
  exists ins, In ins universe /\ name ins = "NIFTY"%string /\
              expiry ins = d.
Proof.
  unfold nifty_expiries. rewrite in_sorted, in_set_of, in_map_iff. split.
  - intros (ins & He & Hf). apply filter_In in Hf. destruct Hf as [Hi Hn].
    apply String.eqb_eq in Hn. eauto.
  - intros (ins & Hi & Hn & He). exists ins. split; [exact He|].
    apply filter_In. split; [exact Hi | now apply String.eqb_eq].
Qed.

(** The first expiry depends on the listed expiries only. *)
Lemma nifty_expiries_head_unique (u1 u2 : list Instrument) :
  (forall d, In d (nifty_expiries u1) <-> In d (nifty_expiries u2)) ->
  hd_error (nifty_expiries u1) = hd_error (nifty_expiries u2).
Proof.
  intros Hsame.
  destruct (nifty_expiries u1) as [| e1 r1] eqn:E1,
           (nifty_expiries u2) as [| e2 r2] eqn:E2; cbn [hd_error].
  - reflexivity.
  - exfalso. exact (proj2 (Hsame e2) (or_introl eq_refl)).
  - exfalso. exact (proj1 (Hsame e1) (or_introl eq_refl)).
  - f_equal.
    pose proof (proj1 (Hsame e1) (or_introl eq_refl)) as H1.
    pose proof (proj2 (Hsame e2) (or_introl eq_refl)) as H2.
    rewrite <- E2 in H1. rewrite <- E1 in H2.
    unfold nifty_expiries in *.
    apply sorted_head_min in E1, E2.
    destruct E1 as [_ M1], E2 as [_ M2].
    apply (proj1 (in_sorted _ _)) in H1, H2.
    apply date_leb_antisym; [now apply M1 | now apply M2].
Qed.

(** X9: once the instrument list is available, [get_current_expiry] raises
    IndexError exactly when no instrument is named NIFTY, and otherwise
    returns the one expiry listed for NIFTY that no other precedes; the
    answer depends on the set of listed expiries only, not on the order or
    the repetitions of the list. *)
Theorem current_expiry_is_earliest_listed (kite : Kite) (st st' : State)
  (universe : list Instrument) :
  load_instruments kite st = (inr universe, st') ->
  (fst (get_current_expiry kite st) = inl IndexError <->
   forall ins, In ins universe -> name ins <> "NIFTY"%string) /\
  (forall e, fst (get_current_expiry kite st) = inr e <->
     (exists ins, In ins universe /\ name ins = "NIFTY"%string /\
                  expiry ins = e) /\
     (forall ins, In ins universe -> name ins = "NIFTY"%string ->
                  date_leb e (expiry ins) = true)) /\
  (forall kite2 st2 st2' universe2,
     load_instruments kite2 st2 = (inr universe2, st2') ->
     (forall d, In d (nifty_expiries universe)
                <-> In d (nifty_expiries universe2)) ->
     fst (get_current_expiry kite2 st2) = fst (get_current_expiry kite st)).
Proof.
  intros Hload.
  assert (Hrun : forall k s s' u, load_instruments k s = (inr u, s') ->
            fst (get_current_expiry k s)
            = match hd_error (nifty_expiries u) with
              | Some e => inr e
              | None => inl IndexError
              end).
  { intros k s s' u H. rewrite get_current_expiry_run, H.
    now destruct (nifty_expiries u). }
  rewrite (Hrun _ _ _ _ Hload). split; [|split].
  - destruct (nifty_expiries universe) as [| e rest] eqn:E; cbn [hd_error].
    + split; [|reflexivity]. intros _ ins Hi Hn.
      assert (H : In (expiry ins) (nifty_expiries universe))
        by (apply in_nifty_expiries; eauto).
      rewrite E in H. destruct H.
    + split; [discriminate|]. intros H. exfalso.
      apply nifty_expiries_head in E. destruct E as [(ins & Hi & Hn & _) _].
      exact (H ins Hi Hn).
  - intros e.
    destruct (nifty_expiries universe) as [| e0 rest] eqn:E; cbn [hd_error].
    + split; [discriminate|]. intros [(ins & Hi & Hn & He) _]. exfalso.
      assert (H : In e (nifty_expiries universe))
        by (apply in_nifty_expiries; eauto).
      rewrite E in H. destruct H.
    + apply nifty_expiries_head in E. destruct E as [Hex Hmin]. split.
      * intros H. injection H as <-. split; assumption.
      * intros [(ins & Hi & Hn & He) Hmin']. f_equal.
        destruct Hex as (ins0 & Hi0 & Hn0 & He0).
        apply date_leb_antisym.
        -- rewrite <- He. now apply Hmin.
        -- rewrite <- He0. now apply Hmin'.
  - intros kite2 st2 st2' universe2 Hload2 Hsame.
    rewrite (Hrun _ _ _ _ Hload2).
    now rewrite (nifty_expiries_head_unique universe universe2 Hsame).
Qed.

(** Witness of X9: the example universe, read from the cache. *)
Lemma current_expiry_is_earliest_listed_witness :
  fst (get_current_expiry kite_down cached_state) = inr (mk_date 2024 1 18).
Proof.
  apply (proj1 (proj2
    (current_expiry_is_earliest_listed kite_down cached_state cached_state
       example_universe eq_refl))).
  split.
  - exists (mk_instrument "NIFTY" (mk_date 2024 1 18) 10500 "CE"
              "NIFTY2411810500CE").
    split; [right; right; left; reflexivity | split; reflexivity].
  - intros ins Hin Hn.
    repeat (destruct Hin as [<- | Hin]; [first [reflexivity | discriminate]|]).
    destruct Hin.
Defined.


(** ** The spot price *)

Lemma fifty_finite :
  exists m e, Prim2SF 50%float = S754_finite false m e.
Proof. eexists. eexists. vm_compute. reflexivity. Qed.

Lemma div_fifty_not_finite (spot : float) :
  (undefined spot -> value (spot / 50)%float = NaN) /\
  (value spot = PInf -> value (spot / 50)%float = PInf) /\
  (value spot = MInf -> value (spot / 50)%float = MInf).
Proof.
  unfold undefined, value. rewrite div_spec. unfold SF64div.
  destruct fifty_finite as (m & e & ->).
  destruct (Prim2SF spot) as [s | s | | s m' e']; cbn [SF2X SFdiv];
    repeat split; try discriminate; try reflexivity;
    destruct s; try discriminate; reflexivity.
Qed.

(** X10: a spot price that is not a number stops the resolution at
    [round]: with a NaN it raises ValueError, with an infinity
    OverflowError, after the one request for the price; the instrument
    list is not asked for. *)
Theorem resolution_needs_finite_spot (kite : Kite) (side : string)
  (st : State) (spot : float) :
  kite_ltp kite (calls st) "NSE:NIFTY 50" = Some spot ->
  (undefined spot ->
   get_atm_option_symbol kite side st
   = (inl ValueError,
      mk_state (_INSTRUMENTS st) (calls st ++ [CallLtp "NSE:NIFTY 50"])
        (log st))) /\
  (value spot = PInf \/ value spot = MInf ->
   get_atm_option_symbol kite side st
   = (inl OverflowError,
      mk_state (_INSTRUMENTS st) (calls st ++ [CallLtp "NSE:NIFTY 50"])
        (log st))).
Proof.
  intros Hltp. destruct (div_fifty_not_finite spot) as (Hnan & Hp & Hm).
  unfold get_atm_option_symbol.
  erewrite bind_ok by (apply request_ok; exact Hltp).
  split.
  - intros H. apply bind_raise. rewrite atm_strike_run, (Hnan H). reflexivity.
  - intros [H | H]; apply bind_raise; rewrite atm_strike_run;
      [rewrite (Hp H) | rewrite (Hm H)]; reflexivity.
Qed.

(** Witness of X10: the broker answers NaN. *)
Lemma resolution_needs_finite_spot_witness :
  get_atm_option_symbol (example_kite nan) "CALL" initial
  = (inl ValueError, mk_state None [CallLtp "NSE:NIFTY 50"] []).
Proof.
  apply (proj1 (resolution_needs_finite_spot (example_kite nan) "CALL"
                  initial nan eq_refl)).
  reflexivity.
Defined.

(** ** Resolution on a filled cache *)

(** X11: with the instrument list cached, a resolution sends the request
    for the spot price and nothing else, and its outcome is decided by the
    cached list: two brokers that give the same spot price give the same
    result and the same state, whatever they would list. *)
Theorem cached_resolution_ignores_broker_list (kite1 kite2 : Kite)
  (side : string) (st : State) (universe : list Instrument) :
  _INSTRUMENTS st = Some universe ->
  kite_ltp kite1 (calls st) "NSE:NIFTY 50"
  = kite_ltp kite2 (calls st) "NSE:NIFTY 50" ->
  sends (get_atm_option_symbol kite1 side) st [CallLtp "NSE:NIFTY 50"] /\
  get_atm_option_symbol kite1 side st = get_atm_option_symbol kite2 side st.
Proof.
  intros Hc Hltp.
  assert (Hrun : forall kite,
    get_atm_option_symbol kite side st
    = let st1 := mk_state (Some universe)
                   (calls st ++ [CallLtp "NSE:NIFTY 50"]) (log st) in
      match kite_ltp kite (calls st) "NSE:NIFTY 50" with
      | None => (inl (BrokerError (CallLtp "NSE:NIFTY 50")), st1)
      | Some spot =>
          match atm_strike spot st1 with
          | (inl e, _) => (inl e, st1)
          | (inr strike0, _) =>
              match nifty_expiries universe with
              | [] => (inl IndexError, st1)
              | e :: _ =>
                  match find (is_option e strike0 side) universe with
                  | Some ins => (inr (tradingsymbol ins), st1)
                  | None => (inl OptionSymbolNotFound, st1)
                  end
              end
          end
      end).
  { intros kite. cbv zeta. unfold get_atm_option_symbol.
    destruct (kite_ltp kite (calls st) "NSE:NIFTY 50") as [spot |] eqn:L.
    2:{ erewrite bind_raise by (apply request_raise; exact L).
        now rewrite Hc. }
    erewrite bind_ok by (apply request_ok; exact L). rewrite Hc.
    set (st1 := mk_state _ _ _).
    pose proof (atm_strike_run spot st1) as Hs.
    destruct (value (spot / 50)%float) as [| | q |];
      try (rewrite Hs; erewrite bind_raise by exact Hs; reflexivity).
    rewrite Hs. erewrite bind_ok by exact Hs.
    assert (Hl : load_instruments kite st1 = (inr universe, st1))
      by (now apply load_instruments_cached).
    pose proof (get_current_expiry_run kite st1) as He. rewrite Hl in He.
    destruct (nifty_expiries universe) as [| e rest].
    { erewrite bind_raise by exact He. reflexivity. }
    erewrite bind_ok by exact He. erewrite bind_ok by exact Hl.
    now destruct (find _ universe). }
  split.
  - unfold sends. rewrite (Hrun kite1). cbv zeta.
    destruct (kite_ltp kite1 (calls st) "NSE:NIFTY 50") as [spot |];
      [|reflexivity].
    destruct (atm_strike spot _) as [[e | k] st2]; [reflexivity|].
    destruct (nifty_expiries universe); [reflexivity|].
    now destruct (find _ universe).
  - now rewrite (Hrun kite1), (Hrun kite2), Hltp.
Qed.

(** Witness of X11: the cached universe against a broker whose list is now
    empty. *)
Lemma cached_resolution_ignores_broker_list_witness :
  get_atm_option_symbol (example_kite 10523) "CALL" cached_state
  = get_atm_option_symbol (kite_rolled 10523) "CALL" cached_state.
Proof.
  apply (proj2 (cached_resolution_ignores_broker_list (example_kite 10523)
                  (kite_rolled 10523) "CALL" cached_state example_universe
                  eq_refl eq_refl)).
Defined.


(** ** Entries *)

Lemma place_entry_run (config : Config) (kite : Kite) (side : string)
  (st : State) :
  place_entry config kite side st
  = match get_atm_option_symbol kite side st with
    | (inl e, st') => (inl e, st')
    | (inr sym, st') =>
        if AUTO_TRADE config then
          let o := entry_order config sym in
          let st'' := mk_state (_INSTRUMENTS st')
                        (calls st' ++ [CallPlaceOrder o]) (log st') in
          match kite_place_order kite (calls st') o with
          | Some id =>
              (inr (mk_entry "live" sym (Some id)),
               mk_state (_INSTRUMENTS st') (calls st'')
                 (log st' ++
                  [("LIVE ENTRY → " ++ sym ++ " | Order ID: " ++ id)%string]))
          | None => (inl (BrokerError (CallPlaceOrder o)), st'')
          end
        else
          (inr (mk_entry "paper" sym None),
           mk_state (_INSTRUMENTS st') (calls st')
             (log st' ++ [("PAPER ENTRY → " ++ sym)%string]))
    end.
Proof.
  unfold place_entry, bind at 1.
  destruct (get_atm_option_symbol kite side st) as [[e | sym] st'];
    [reflexivity|].
  destruct (AUTO_TRADE config); cbn [negb]; [|reflexivity].
  unfold bind, request, logging_info, ret, entry_order. cbv zeta.
  now destruct (kite_place_order kite (calls st') _).
Qed.

Lemma resolution_places_no_order (kite : Kite) (side : string) (st : State)
  (o : Order) :
  In (CallPlaceOrder o) (calls (snd (get_atm_option_symbol kite side st))) ->
  In (CallPlaceOrder o) (calls st).
Proof.
  pose proof (get_atm_option_symbol_calls kite side st) as H. cbv zeta in H.
  destruct H as [-> | ->]; rewrite in_app_iff; cbn [In];
    intros [H | H]; try exact H;
    repeat (destruct H as [H | H]; [discriminate|]); destruct H.
Qed.

(** An order of an entry comes after the resolution, and is the BUY of the
    resolved symbol. *)
Lemma entry_order_after_resolution (config : Config) (kite : Kite)
  (side : string) (st : State) :
  (forall o,
     In (CallPlaceOrder o) (calls (snd (place_entry config kite side st))) ->
     In (CallPlaceOrder o) (calls st) \/
     AUTO_TRADE config = true /\
     exists sym st',
       get_atm_option_symbol kite side st = (inr sym, st') /\
       o = entry_order config sym) /\
  (forall res, fst (place_entry config kite side st) = inr res ->
     exists st',
       get_atm_option_symbol kite side st = (inr (symbol res), st') /\
       (if AUTO_TRADE config
        then status res = "live"%string /\
             order_id res
             = kite_place_order kite (calls st')
                 (entry_order config (symbol res)) /\
             order_id res <> None
        else status res = "paper"%string /\ order_id res = None)) /\
  (forall e st',
     get_atm_option_symbol kite side st = (inl e, st') ->
     place_entry config kite side st = (inl e, st')) /\
  (forall sym st',
     AUTO_TRADE config = true ->
     get_atm_option_symbol kite side st = (inr sym, st') ->
     kite_place_order kite (calls st') (entry_order config sym) = None ->
     place_entry config kite side st
     = (inl (BrokerError (CallPlaceOrder (entry_order config sym))),
        mk_state (_INSTRUMENTS st')
          (calls st' ++ [CallPlaceOrder (entry_order config sym)])
          (log st'))).
Proof.
  rewrite place_entry_run.
  pose proof (resolution_places_no_order kite side st) as Hres.
  destruct (get_atm_option_symbol kite side st) as [[e | sym] st'] eqn:R;
    cbn [snd] in Hres.
  { split; [intros o H; left; now apply Hres|].
    split; [discriminate|]. split; [congruence | discriminate]. }
  destruct (AUTO_TRADE config) eqn:A.
  2:{ split; [intros o H; left; now apply Hres|].
      split; [|split; [discriminate | discriminate]].
      intros res H. injection H as <-. exists st'. cbn. auto. }
  cbv zeta.
  destruct (kite_place_order kite (calls st') (entry_order config sym))
    as [id |] eqn:P.
  - split; [|split; [|split; [discriminate|]]].
    + intros o. cbn [snd calls]. rewrite in_app_iff. cbn [In].
      intros [H | [H | []]]; [left; now apply Hres|].
      injection H as <-. right. split; [reflexivity|]. eauto.
    + intros res H. injection H as <-. exists st'. cbn [symbol status order_id].
      rewrite P. repeat split; congruence.
    + intros sym0 st0 _ H. injection H as <- <-. congruence.
  - split; [|split; [discriminate|split; [discriminate|]]].
    + intros o. cbn [snd calls]. rewrite in_app_iff. cbn [In].
      intros [H | [H | []]]; [left; now apply Hres|].
      injection H as <-. right. split; [reflexivity|]. eauto.
    + intros sym0 st0 _ H _. now injection H as <- <-.
Qed.

(** X12: [place_entry] places an order only in live mode and only after the
    instrument has resolved, and then exactly one: the requests of an entry
    are those of the resolution (the spot price, then at most the
    instrument list), followed in live mode by one market BUY of
    [ORDER_QTY] of the resolved symbol, and by nothing on paper.  The
    result names that symbol, with the order id in live mode; when the
    resolution fails no order is placed, and when the broker rejects the
    order the entry fails with the broker's error and logs nothing. *)
Theorem entry_places_one_buy_order (config : Config) (kite : Kite)
  (side : string) (st : State) :
  (forall o,
     In (CallPlaceOrder o) (calls (snd (place_entry config kite side st))) ->
     In (CallPlaceOrder o) (calls st) \/
     AUTO_TRADE config = true /\
     exists sym st',
       get_atm_option_symbol kite side st = (inr sym, st') /\
       o = entry_order config sym) /\
  (forall res, fst (place_entry config kite side st) = inr res ->
     exists st',
       get_atm_option_symbol kite side st = (inr (symbol res), st') /\
       (if AUTO_TRADE config
        then status res = "live"%string /\
             order_id res
             = kite_place_order kite (calls st')
                 (entry_order config (symbol res)) /\
             order_id res <> None
        else status res = "paper"%string /\ order_id res = None)) /\
  (forall e st',
     get_atm_option_symbol kite side st = (inl e, st') ->
     place_entry config kite side st = (inl e, st')) /\
  (forall sym st',
     AUTO_TRADE config = true ->
     get_atm_option_symbol kite side st = (inr sym, st') ->
     kite_place_order kite (calls st') (entry_order config sym) = None ->
     place_entry config kite side st
     = (inl (BrokerError (CallPlaceOrder (entry_order config sym))),
        mk_state (_INSTRUMENTS st')
          (calls st' ++ [CallPlaceOrder (entry_order config sym)])
          (log st'))) /\
  (forall sym st' id,
     AUTO_TRADE config = true ->
     get_atm_option_symbol kite side st = (inr sym, st') ->
     kite_place_order kite (calls st') (entry_order config sym) = Some id ->
     place_entry config kite side st
     = (inr (mk_entry "live" sym (Some id)),
        mk_state (_INSTRUMENTS st')
          (calls st' ++ [CallPlaceOrder (entry_order config sym)])
          (log st' ++
           [("LIVE ENTRY → " ++ sym ++ " | Order ID: " ++ id)%string]))) /\
  (forall sym st',
     AUTO_TRADE config = false ->
     get_atm_option_symbol kite side st = (inr sym, st') ->
     place_entry config kite side st
     = (inr (mk_entry "paper" sym None),
        mk_state (_INSTRUMENTS st') (calls st')
          (log st' ++ [("PAPER ENTRY → " ++ sym)%string]))) /\
  (exists resolution orders,
     calls (snd (place_entry config kite side st))
     = calls st ++ resolution ++ map CallPlaceOrder orders /\
     (resolution = [CallLtp "NSE:NIFTY 50"] \/
      resolution = [CallLtp "NSE:NIFTY 50"; CallInstruments "NFO"]) /\
     (orders = [] \/
      exists sym st',
        AUTO_TRADE config = true /\
        get_atm_option_symbol kite side st = (inr sym, st') /\
        orders = [entry_order config sym])) /\
  (forall sym,
     variety (entry_order config sym) = VARIETY_REGULAR /\
     exchange (entry_order config sym) = EXCHANGE config /\
     order_tradingsymbol (entry_order config sym) = sym /\
     transaction_type (entry_order config sym) = TRANSACTION_TYPE_BUY /\
     order_quantity (entry_order config sym) = ORDER_QTY config /\
     product (entry_order config sym) = PRODUCT config /\
     order_type (entry_order config sym) = ORDER_TYPE_MARKET).
Proof.
  destruct (entry_order_after_resolution config kite side st)
    as (H1 & H2 & H3 & H4).
  split; [exact H1|]. split; [exact H2|]. split; [exact H3|].
  split; [exact H4|]. split; [|split; [|split]].
  - intros sym st' id A R P. rewrite place_entry_run, R, A. cbv zeta.
    now rewrite P.
  - intros sym st' A R. now rewrite place_entry_run, R, A.
  - pose proof (get_atm_option_symbol_calls kite side st) as Hc.
    cbv zeta in Hc. rewrite place_entry_run.
    destruct (get_atm_option_symbol kite side st) as [[e | sym] st'] eqn:R;
      cbn [snd] in Hc.
    { destruct Hc as [Hc | Hc]; eexists; exists [];
        (split; [cbn [snd map]; rewrite Hc, app_nil_r; reflexivity|]);
        (split; [|left; reflexivity]); [left | right]; reflexivity. }
    destruct (AUTO_TRADE config) eqn:A.
    + assert (Hs : calls (snd
                (let o := entry_order config sym in
                 let st'' := mk_state (_INSTRUMENTS st')
                               (calls st' ++ [CallPlaceOrder o]) (log st') in
                 match kite_place_order kite (calls st') o with
                 | Some id =>
                     (inr (mk_entry "live" sym (Some id)),
                      mk_state (_INSTRUMENTS st') (calls st'')
                        (log st' ++
                         [("LIVE ENTRY → " ++ sym ++ " | Order ID: " ++ id)
                            %string]))
                 | None => (inl (BrokerError (CallPlaceOrder o)), st'')
                 end))
              = calls st' ++ [CallPlaceOrder (entry_order config sym)]).
      { cbv zeta. now destruct (kite_place_order kite (calls st') _). }
      rewrite Hs.
      destruct Hc as [Hc | Hc]; eexists; exists [entry_order config sym];
        (split; [cbn [map]; rewrite Hc, <- app_assoc; reflexivity|]);
        (split; [|right; exists sym, st'; auto]); [left | right];
        reflexivity.
    + destruct Hc as [Hc | Hc]; eexists; exists [];
        (split; [cbn [snd calls map]; rewrite Hc, app_nil_r; reflexivity|]);
        (split; [|left; reflexivity]); [left | right]; reflexivity.
  - intros sym. repeat split.
Qed.

(** Witness of X12: a live CALL entry on the example universe: the spot
    price, the instrument list, then the one BUY order. *)
Lemma entry_places_one_buy_order_witness :
  place_entry live_config (example_kite 10523) "CALL" initial
  = (inr (mk_entry "live" "NIFTY2411810500CE"
            (Some "order-NIFTY2411810500CE"%string)),
     mk_state (Some example_universe)
       [ CallLtp "NSE:NIFTY 50"; CallInstruments "NFO";
         CallPlaceOrder (entry_order live_config "NIFTY2411810500CE") ]
       [ "LIVE ENTRY → NIFTY2411810500CE | Order ID: order-NIFTY2411810500CE"
           %string ]).
Proof.
  apply (proj1 (proj2 (proj2 (proj2 (proj2
    (entry_places_one_buy_order live_config (example_kite 10523) "CALL"
       initial)))))
    "NIFTY2411810500CE"%string
    (mk_state (Some example_universe)
       [CallLtp "NSE:NIFTY 50"; CallInstruments "NFO"] [])
    "order-NIFTY2411810500CE"%string).
  - reflexivity.
  - vm_compute. reflexivity.
  - reflexivity.
Defined.

(** ** Exits *)

Lemma exit_position_run (config : Config) (kite : Kite) (sym : string)
  (qty : Z) (st : State) :
  exit_position config kite sym qty st
  = if AUTO_TRADE config then
      let o := exit_order config sym qty in
      match kite_place_order kite (calls st) o with
      | Some _ =>
          (inr tt,
           mk_state (_INSTRUMENTS st) (calls st ++ [CallPlaceOrder o])
             (log st ++ [("LIVE EXIT → " ++ sym)%string]))
      | None =>
          (inl (BrokerError (CallPlaceOrder o)),
           mk_state (_INSTRUMENTS st) (calls st ++ [CallPlaceOrder o])
             (log st))
      end
    else
      (inr tt,
       mk_state (_INSTRUMENTS st) (calls st)
         (log st ++ [("PAPER EXIT → " ++ sym)%string])).
Proof.
  unfold exit_position. destruct (AUTO_TRADE config); cbn [negb];
    [|reflexivity].
  unfold bind, request, logging_info. cbv zeta.
  now destruct (kite_place_order kite (calls st) _).
Qed.

Lemma get_open_positions_run (kite : Kite) (st : State) :
  get_open_positions kite st
  = let st' := mk_state (_INSTRUMENTS st) (calls st ++ [CallPositions])
                 (log st) in
    match kite_positions kite (calls st) with
    | Some positions => (inr (open_positions positions), st')
    | None => (inl (BrokerError CallPositions), st')
    end.
Proof.
  unfold get_open_positions, bind, request, ret. cbv zeta.
  now destruct (kite_positions kite (calls st)).
Qed.



(** X14: in live mode [auto_exit] stops at the first order the broker
    rejects: the positions before it are sold, the rejected order is the
    last request, the broker's error leaves [auto_exit], and the positions
    after it are not tried. *)
Theorem auto_exit_stops_at_rejected_order (config : Config) (kite : Kite)
  (st : State) (positions sold rest : list Position) (p : Position) :
  AUTO_TRADE config = true ->
  kite_positions kite (calls st) = Some positions ->
  open_positions positions = sold ++ p :: rest ->
  (forall h q, In q sold ->
     kite_place_order kite h
       (exit_order config (pos_tradingsymbol q) (Z.abs (quantity q)))
     <> None) ->
  (forall h,
     kite_place_order kite h
       (exit_order config (pos_tradingsymbol p) (Z.abs (quantity p)))
     = None) ->
  auto_exit config kite true st
  = (inl (BrokerError
            (CallPlaceOrder
               (exit_order config (pos_tradingsymbol p)
                  (Z.abs (quantity p))))),
     mk_state (_INSTRUMENTS st)
       (calls st ++ CallPositions :: exit_calls config (sold ++ [p]))
       (log st ++ exit_lines "LIVE EXIT → " sold)).
Proof.
  intros A P Hopen Hsold Hrej.
  unfold auto_exit. cbn [negb].
  erewrite bind_ok by (rewrite get_open_positions_run, P; reflexivity).
  rewrite Hopen. clear Hopen P.
  set (st1 := mk_state _ _ _).
  assert (H : forall s,
    for_each
      (fun pos => exit_position config kite (pos_tradingsymbol pos)
                    (Z.abs (quantity pos)))
      (sold ++ p :: rest) s
    = (inl (BrokerError
              (CallPlaceOrder
                 (exit_order config (pos_tradingsymbol p)
                    (Z.abs (quantity p))))),
       mk_state (_INSTRUMENTS s)
         (calls s ++ exit_calls config (sold ++ [p]))
         (log s ++ exit_lines "LIVE EXIT → " sold))).
  { induction sold as [| q sold IH]; intros s; cbn [app for_each].
    - apply bind_raise. rewrite exit_position_run, A. cbv zeta.
      rewrite Hrej. cbn. now rewrite app_nil_r.
    - erewrite bind_ok.
      2:{ rewrite exit_position_run, A. cbv zeta.
          destruct (kite_place_order kite (calls s) _) as [id |] eqn:E;
            [reflexivity|].
          exfalso. apply (Hsold (calls s) q); [now left | exact E]. }
      rewrite IH by (intros h q' Hq'; apply Hsold; now right).
      cbn [_INSTRUMENTS calls log exit_calls exit_lines map app].
      now rewrite <- !app_assoc. }
  rewrite H. cbn [st1 _INSTRUMENTS calls log]. now rewrite <- app_assoc.
Qed.

(** Witness of X14: of three positions the broker rejects the order for the
    second: the first is sold, the third is not tried. *)
Lemma auto_exit_stops_at_rejected_order_witness :
  auto_exit live_config (kite_rejecting "NIFTY2411810550CE") true initial
  = (inl (BrokerError
            (CallPlaceOrder (exit_order live_config "NIFTY2411810550CE" 75))),
     mk_state None
       [ CallPositions;
         CallPlaceOrder (exit_order live_config "NIFTY2411810500CE" 50);
         CallPlaceOrder (exit_order live_config "NIFTY2411810550CE" 75) ]
       [ "LIVE EXIT → NIFTY2411810500CE"%string ]).
Proof.
  apply (auto_exit_stops_at_rejected_order live_config
           (kite_rejecting "NIFTY2411810550CE") initial
           [ mk_position "NIFTY2411810500CE" 50;
             mk_position "NIFTY2411810550CE" 75;
             mk_position "NIFTY2411810600PE" (-25) ]
           [ mk_position "NIFTY2411810500CE" 50 ]
           [ mk_position "NIFTY2411810600PE" (-25) ]
           (mk_position "NIFTY2411810550CE" 75)).
  - reflexivity.
  - reflexivity.
  - reflexivity.
  - intros h q [<- | []]. discriminate.
  - intros h. reflexivity.
Defined.

(** X15: [has_open_position] answers from one positions request: true
    exactly when some net position has a non-zero quantity; when it
    answers false on the positions [auto_exit] reads, [auto_exit] places
    no order and logs nothing. *)
Theorem has_open_position_reads_net (config : Config) (kite : Kite)
  (st : State) (positions : list Position) :
  kite_positions kite (calls st) = Some positions ->
  (exists open,
     has_open_position kite st
     = (inr open,
        mk_state (_INSTRUMENTS st) (calls st ++ [CallPositions]) (log st)) /\
     (open = true <->
      exists p, In p positions /\ quantity p <> 0%Z) /\
     (open = false ->
      auto_exit config kite true st
      = (inr tt,
         mk_state (_INSTRUMENTS st) (calls st ++ [CallPositions])
           (log st)))).
Proof.
  intros P.
  exists (Nat.ltb 0 (List.length (open_positions positions))).
  split; [|split].
  - unfold has_open_position.
    erewrite bind_ok by (rewrite get_open_positions_run, P; reflexivity).
    reflexivity.
  - rewrite Nat.ltb_lt. split.
    + intros H. destruct (open_positions positions) as [| p l] eqn:E;
        [cbn in H; lia|].
      exists p. apply in_open_positions. rewrite E. now left.
    + intros (p & Hp). apply in_open_positions in Hp.
      destruct (open_positions positions); [destruct Hp | cbn; lia].
  - intros H. apply Nat.ltb_ge in H.
    unfold auto_exit. cbn [negb].
    erewrite bind_ok by (rewrite get_open_positions_run, P; reflexivity).
    destruct (open_positions positions); [reflexivity | cbn in H; lia].
Qed.

(** Witness of X15: the example broker holds two positions of non-zero
    quantity. *)
Lemma has_open_position_reads_net_witness :
  exists open,
    has_open_position (example_kite 10523) initial
    = (inr open, mk_state None [CallPositions] []) /\
    (open = true <->
     exists p, In p example_positions /\ quantity p <> 0%Z) /\
    (open = false ->
     auto_exit paper_config (example_kite 10523) true initial
     = (inr tt, mk_state None [CallPositions] [])).
Proof.
  exact (has_open_position_reads_net paper_config (example_kite 10523)
           initial example_positions eq_refl).
Defined.

End RouterFacts.
